(** * SU2 / AMG adaptation launcher: a model of [launch_adap.py]

    The script [TestCases/py_wrapper/adap_amg/launch_adap.py] drives the
    wrapped SU2 discrete-adjoint driver through a direct solve, an adjoint
    solve and an error-estimation phase, and assembles the per-point,
    per-variable array handed to the mesh adapter.

    The wrapped module [pysu2ad] is opaque to the script.  It is taken here
    as a record of functions over an abstract solver state; [main] is
    embedded as a computation that threads this state, can raise Python
    exceptions, and records every interaction with the outside (wrapper
    calls together with their results, prints, barriers, array stores) in
    a chronological list of events. *)

From Stdlib Require Import ZArith List Lia Ascii.
From stdpp Require Import base gmap strings list.
From Equations Require Import Equations.

Local Open Scope Z_scope.

(** ** Python-side data *)

(** Exceptions.  [TypeError] is the only class the script names; every
    exception that is not an instance of it is an [OtherError] carrying its
    class name.  [IndexError] is what numpy raises on an out-of-range
    subscript. *)
Inductive Exn :=
| TypeError (msg : string)
| IndexError
| OtherError (cls msg : string).

(** [comm] is [MPI.COMM_WORLD] in a parallel run and the integer [0]
    otherwise. *)
Inductive Comm := COMM_WORLD | comm_0.

(** The parsed command line, after [int(...)] of [nDim] and [nZone]. *)
Record Options := mkOptions {
  filename : option string;
  nDim : Z;
  nZone : Z;
  with_MPI : bool
}.

(** The two wrapper objects the script holds. *)
Inductive Obj := SU2Driver | SU2Error.

(** Method invocations with their actual arguments. *)
Module Ev.

Inductive method :=
| GetAllBoundaryMarkersTag
| GetAllBoundaryMarkers
| GetNumberVertices (MarkerID : Z)
| GetNumberHaloVertices (MarkerID : Z)
| GetExtIter
| GetnExtIter
| DirectIteration (TimeIter : Z)
| Preprocess (TimeIter : Z)
| Run
| Postprocess
| Update
| Monitor (TimeIter : Z)
| Output (TimeIter : Z)
| ComputeMetric
| SetAdaptationData
| GetnPointDomain (iZone iInst iMesh : Z)
| GetnVarPar
| GetAdaptationData (iVar iPoint : nat)
| Postprocessing.

End Ev.

(** The literal texts printed by the script. *)
Definition nl : string := String "010"%char EmptyString.

Definition banner_flow : string :=
  nl +:+ "--------------------------- Begin Flow Solver ---------------------------" +:+ nl.
Definition banner_adjoint : string :=
  nl +:+ "-------------------------- Begin Adjoint Solver -------------------------" +:+ nl.
Definition banner_error : string :=
  nl +:+ "------------------------- Begin Error Estimation ------------------------" +:+ nl.

Definition msg_TypeError : string := "A TypeError occured in pysu2.CDriver : ".
Definition msg_serial_build : string :=
  "ERROR : You are trying to initialize MPI with a serial build of the wrapper. Please, remove the --parallel option that is incompatible with a serial build.".
Definition msg_parallel_build : string :=
  "ERROR : You are trying to launch a computation without initializing MPI but the wrapper has been built in parallel. Please add the --parallel option in order to initialize MPI for the wrapper.".

Section Launch.

(** [St] is the state of everything outside the script: the environment
    the constructors read and, once they exist, the solver state behind the
    wrapper objects (the error estimation driver keeps a reference to the
    direct driver, so one state covers both); [V] is the type of the
    floating-point values that are moved, never computed with, and [zero]
    is [0.0]. *)
Context {St V : Type} (zero : V).

(** Values returned to the script by wrapper calls. *)
Inductive RetVal :=
| RNone
| RBool (b : bool)
| RInt (z : Z)
| RCount (n : nat)
| RFloat (v : V)
| RTags (l : list string)
| RMarkers (m : gmap string Z).

(** Everything the script does that is visible from outside. *)
Inductive Event :=
| Construct (o : Obj) (raised : option Exn)
| Call (o : Obj) (m : Ev.method) (r : RetVal)
| Print (args : list string)
| PrintRow (row : list V)
| Flush
| Barrier
| Alloc (shape : nat * nat)
| Store (iPoint iVar : nat) (v : V)
| Del (o : Obj).

(** ** The wrapped module

    What [mpi4py] and [pysu2ad] do when called.  Queries read the state;
    the solver steps change it.  Counts come from unsigned C++ getters and
    are natural numbers; iteration counters and marker identifiers are
    Python integers.  Only the two constructors are given the possibility
    to raise, as these are the calls the script guards; a constructor that
    raises leaves the state as it found it. *)
Record Wrapper := mkWrapper {
  Get_rank : Z;
  CDiscAdjSinglezoneDriver : option string -> Z -> Z -> Comm -> St -> Exn + St;
  GetAllBoundaryMarkersTag : St -> list string;
  GetAllBoundaryMarkers : St -> gmap string Z;
  GetNumberVertices : St -> Z -> nat;
  GetNumberHaloVertices : St -> Z -> nat;
  GetExtIter : St -> Z;
  GetnExtIter : St -> Z;
  DirectIteration : Z -> St -> bool * St;
  Preprocess : Z -> St -> St;
  Run : St -> St;
  Postprocess : St -> St;
  Update : St -> St;
  Monitor : Z -> St -> bool * St;
  Output : Z -> St -> St;
  GetnPointDomain : St -> Z -> Z -> Z -> nat;
  Postprocessing : St -> St;
  CErrorEstimationDriver : Z -> Z -> Comm -> St -> Exn + St;
  ComputeMetric : St -> St;
  SetAdaptationData : St -> St;
  GetnVarPar : St -> nat;
  GetAdaptationData : St -> nat -> nat -> V
}.

(** ** numpy arrays of rank two *)

Record ndarray := mkArray {
  shape : nat * nat;
  rows : list (list V)
}.

(** [np.zeros((n, m))] *)
Definition np_zeros (sh : nat * nat) : ndarray :=
  mkArray sh (replicate sh.1 (replicate sh.2 zero)).

(** [a[i, j] = v]; numpy raises [IndexError] outside the shape. *)
Definition setitem (a : ndarray) (i j : nat) (v : V) : option ndarray :=
  if bool_decide (i < (shape a).1 ∧ j < (shape a).2)%nat
  then Some (mkArray (shape a) (alter (fun row => <[j := v]> row) i (rows a)))
  else None.

(** [a[i, :]] *)
Definition getrow (a : ndarray) (i : nat) : option (list V) :=
  if bool_decide (i < (shape a).1)%nat then rows a !! i else None.

(** [a[i, j]] *)
Definition getitem (a : ndarray) (i j : nat) : option V :=
  if bool_decide (i < (shape a).1 ∧ j < (shape a).2)%nat
  then row ← rows a !! i; row !! j
  else None.

(** ** Computations of the script *)

(** The result of running a piece of the script from a solver state: the
    events in order, the value or the exception raised, and the state
    reached. *)
Record Res (A : Type) := mkRes {
  events : list Event;
  value : Exn + A;
  world : St
}.
Arguments mkRes {A} _ _ _.
Arguments events {A} _.
Arguments value {A} _.
Arguments world {A} _.

Definition M (A : Type) : Type := St -> Res A.

#[export] Instance M_ret : MRet M := fun A a s => mkRes [] (inr a) s.

#[export] Instance M_bind : MBind M := fun A B k m s =>
  let r := m s in
  match value r with
  | inl e => mkRes (events r) (inl e) (world r)
  | inr a => let r' := k a (world r) in
             mkRes (events r ++ events r') (value r') (world r')
  end.

Definition emit (e : Event) : M unit := fun s => mkRes [e] (inr tt) s.

Definition raise {A} (e : Exn) : M A := fun s => mkRes [] (inl e) s.

(** A call that reads the state. *)
Definition query {A} (o : Obj) (m : Ev.method) (r : A -> RetVal) (f : St -> A) : M A :=
  fun s => mkRes [Call o m (r (f s))] (inr (f s)) s.

(** A call that advances the state and returns nothing. *)
Definition command (o : Obj) (m : Ev.method) (f : St -> St) : M unit :=
  fun s => mkRes [Call o m RNone] (inr tt) (f s).

(** A call that advances the state and returns the stop signal. *)
Definition step (o : Obj) (m : Ev.method) (f : St -> bool * St) : M bool :=
  fun s => mkRes [Call o m (RBool (f s).1)] (inr (f s).1) (f s).2.

(** A constructor call. *)
Definition construct (o : Obj) (ctor : St -> Exn + St) : M unit :=
  fun s => match ctor s with
           | inl e => mkRes [Construct o (Some e)] (inl e) s
           | inr s' => mkRes [Construct o None] (inr tt) s'
           end.

(** [try: x = body / except TypeError as exception: handler / (else) rest]:
    a [TypeError] raised by [body] is handed to [handler], any other
    exception goes on to the caller, and without exception [rest]
    continues with the value of [body]. *)
Definition try_except_TypeError {A B} (body : M A) (handler : string -> M B)
    (rest : A -> M B) : M B :=
  fun s =>
    let r := body s in
    match value r with
    | inl (TypeError exception) =>
        let r' := handler exception (world r) in
        mkRes (events r ++ events r') (value r') (world r')
    | inl e => mkRes (events r) (inl e) (world r)
    | inr a =>
        let r' := rest a (world r) in
        mkRes (events r ++ events r') (value r') (world r')
    end.

(** [for x in l: acc = body(acc, x)] *)
Fixpoint for_each {A B} (body : B -> A -> M B) (l : list A) (acc : B) : M B :=
  match l with
  | [] => mret acc
  | x :: l' => acc' ← body acc x; for_each body l' acc'
  end.

Context (W : Wrapper).

(** *** Lines 98-119: the boundary marker and its vertex counts *)

(** Lines 108-109: the marker is looked up only when the name is both a
    known tag and a key of the markers of this rank. *)
Definition lookup_marker (MarkerName : string) (MarkerList : list string)
    (allMarkerIDs : gmap string Z) : option Z :=
  if bool_decide (MarkerName ∈ MarkerList) && bool_decide (MarkerName ∈ dom allMarkerIDs)
  then allMarkerIDs !! MarkerName
  else None.

Record MarkerInfo := mkMarkerInfo {
  MarkerID : option Z;
  nVertex_Marker : Z;
  nVertex_Marker_HALO : Z;
  nVertex_Marker_PHYS : Z
}.

Definition boundary_marker (MarkerName : string) : M MarkerInfo :=
  MarkerList ← query SU2Driver Ev.GetAllBoundaryMarkersTag RTags (GetAllBoundaryMarkersTag W);
  allMarkerIDs ← query SU2Driver Ev.GetAllBoundaryMarkers RMarkers (GetAllBoundaryMarkers W);
  let MarkerID := lookup_marker MarkerName MarkerList allMarkerIDs in
  match MarkerID with
  | Some id =>
      nVertex_Marker ←
        query SU2Driver (Ev.GetNumberVertices id) RCount (fun s => GetNumberVertices W s id);
      nVertex_Marker_HALO ←
        query SU2Driver (Ev.GetNumberHaloVertices id) RCount (fun s => GetNumberHaloVertices W s id);
      mret (mkMarkerInfo MarkerID (Z.of_nat nVertex_Marker) (Z.of_nat nVertex_Marker_HALO)
              (Z.of_nat nVertex_Marker - Z.of_nat nVertex_Marker_HALO))
  | None => mret (mkMarkerInfo MarkerID 0 0 0)
  end.

(** *** The time loops

    Both loops of the script have the shape
    [while TimeIter < nTimeIter: stopCalc = body(TimeIter);
     if stopCalc == True: break; TimeIter += 1].
    The value is [TimeIter] at loop exit. *)
Equations? time_loop (body : Z -> M bool) (nTimeIter TimeIter : Z) (s : St) : Res Z
  by wf (Z.to_nat (nTimeIter - TimeIter)) lt :=
time_loop body nTimeIter TimeIter s with decide (TimeIter < nTimeIter) := {
  | right _ => (mret TimeIter : M Z) s
  | left _ =>
      (body TimeIter ≫= fun stopCalc : bool =>
       if stopCalc then (mret TimeIter : M Z)
       else (fun s' => time_loop body nTimeIter (TimeIter + 1) s')) s }.
Proof. lia. Qed.

(** Lines 132-138 *)
Definition direct_body (TimeIter : Z) : M bool :=
  step SU2Driver (Ev.DirectIteration TimeIter) (DirectIteration W TimeIter).

Definition direct_loop (nTimeIter TimeIter : Z) : M Z :=
  time_loop direct_body nTimeIter TimeIter.

(** Lines 150-167 *)
Definition adjoint_body (TimeIter : Z) : M bool :=
  command SU2Driver (Ev.Preprocess TimeIter) (Preprocess W TimeIter);;
  command SU2Driver Ev.Run (Run W);;
  command SU2Driver Ev.Postprocess (Postprocess W);;
  command SU2Driver Ev.Update (Update W);;
  stopCalc ← step SU2Driver (Ev.Monitor TimeIter) (Monitor W TimeIter);
  command SU2Driver (Ev.Output TimeIter) (Output W TimeIter);;
  mret stopCalc.

Definition adjoint_loop (nTimeIter TimeIter : Z) : M Z :=
  time_loop adjoint_body nTimeIter TimeIter.

(** *** Lines 126-130, 144-148, 180-184: banner, flush, barrier *)
Definition banner (options : Options) (rank : Z) (text : string) : M unit :=
  (if bool_decide (rank = 0) then emit (Print [text]) else mret tt);;
  emit Flush;;
  (if with_MPI options then emit Barrier else mret tt).

(** *** Lines 121-138: the direct solve *)
Definition direct_phase (options : Options) (rank : Z) : M unit :=
  TimeIter ← query SU2Driver Ev.GetExtIter RInt (GetExtIter W);
  nTimeIter ← query SU2Driver Ev.GetnExtIter RInt (GetnExtIter W);
  banner options rank banner_flow;;
  direct_loop nTimeIter TimeIter;;
  mret tt.

(** *** Lines 140-167: the adjoint solve *)
Definition adjoint_phase (options : Options) (rank : Z) : M unit :=
  TimeIter ← query SU2Driver Ev.GetExtIter RInt (GetExtIter W);
  nTimeIter ← query SU2Driver Ev.GetnExtIter RInt (GetnExtIter W);
  banner options rank banner_adjoint;;
  adjoint_loop nTimeIter TimeIter;;
  mret tt.

(** *** Lines 98-167: what runs between the two constructors *)
Definition solve_phases (options : Options) (rank : Z) : M unit :=
  boundary_marker "airfoil";;
  direct_phase options rank;;
  adjoint_phase options rank.

(** *** Lines 193-200: the adaptation data *)

(** Line 199 *)
Definition store (Sol : ndarray) (iPoint iVar : nat) (v : V) : M ndarray :=
  match setitem Sol iPoint iVar v with
  | Some Sol' => emit (Store iPoint iVar v);; mret Sol'
  | None => raise IndexError
  end.

(** Line 199 with its fetch *)
Definition fill_cell (iPoint : nat) (Sol : ndarray) (iVar : nat) : M ndarray :=
  v ← query SU2Error (Ev.GetAdaptationData iVar iPoint) RFloat
        (fun s => GetAdaptationData W s iVar iPoint);
  store Sol iPoint iVar v.

(** Lines 198-199 *)
Definition fill_row (nVar_Par iPoint : nat) (Sol : ndarray) : M ndarray :=
  for_each (fill_cell iPoint) (seq 0 nVar_Par) Sol.

(** Line 200 *)
Definition print_row (Sol : ndarray) (iPoint : nat) : M unit :=
  match getrow Sol iPoint with
  | Some row => emit (PrintRow row)
  | None => raise IndexError
  end.

(** Lines 198-200 *)
Definition fill_point (nVar_Par : nat) (Sol : ndarray) (iPoint : nat) : M ndarray :=
  Sol ← fill_row nVar_Par iPoint Sol;
  print_row Sol iPoint;;
  mret Sol.

Definition extraction : M ndarray :=
  nPoint_Local ← query SU2Driver (Ev.GetnPointDomain 0 0 0) RCount
                   (fun s => GetnPointDomain W s 0 0 0);
  nVar_Par ← query SU2Error Ev.GetnVarPar RCount (GetnVarPar W);
  emit (Alloc (nPoint_Local, nVar_Par));;
  for_each (fill_point nVar_Par) (seq 0 nPoint_Local)
    (np_zeros (nPoint_Local, nVar_Par)).

(** *** Lines 180-206: error estimation and teardown *)
Definition error_estimation (options : Options) (rank : Z) : M ndarray :=
  banner options rank banner_error;;
  command SU2Error Ev.ComputeMetric (ComputeMetric W);;
  command SU2Error Ev.SetAdaptationData (SetAdaptationData W);;
  Sol ← extraction;
  command SU2Driver Ev.Postprocessing (Postprocessing W);;
  emit (Del SU2Driver);;
  mret Sol.

(** *** Lines 90-96 and 172-178: the handler of [TypeError] *)
Definition mismatch_message (options : Options) : string :=
  if with_MPI options then msg_serial_build else msg_parallel_build.

Definition report_TypeError (options : Options) (exception : string) : M unit :=
  emit (Print [msg_TypeError; exception]);;
  emit (Print [mismatch_message options]).

(** *** [main]

    The command line arrives parsed.  The value is [None] where the script
    leaves [main] through [return] in a handler, and the final content of
    the local [Sol] where it runs to its end. *)
Definition main (options : Options) : M (option ndarray) :=
  let comm := (if with_MPI options then COMM_WORLD else comm_0) in
  let rank := (if with_MPI options then Get_rank W else 0) in
  try_except_TypeError
    (construct SU2Driver
       (CDiscAdjSinglezoneDriver W (filename options) (nZone options) (nDim options) comm))
    (fun exception => report_TypeError options exception;; mret None)
    (fun _ =>
       solve_phases options rank;;
       try_except_TypeError
         (construct SU2Error
            (CErrorEstimationDriver W (nZone options) (nDim options) comm))
         (fun exception => report_TypeError options exception;; mret None)
         (fun _ =>
            Sol ← error_estimation options rank;
            mret (Some Sol))).

(** ** Vocabulary for traces *)

(** The event of one pass through the body of the direct loop, and the
    six events of one pass through the body of the adjoint loop, for the
    stop signal [stopCalc] returned in it. *)
Definition direct_stage (TimeIter : Z) (stopCalc : bool) : list Event :=
  [Call SU2Driver (Ev.DirectIteration TimeIter) (RBool stopCalc)].

Definition adjoint_stages (TimeIter : Z) (stopCalc : bool) : list Event :=
  [Call SU2Driver (Ev.Preprocess TimeIter) RNone;
   Call SU2Driver Ev.Run RNone;
   Call SU2Driver Ev.Postprocess RNone;
   Call SU2Driver Ev.Update RNone;
   Call SU2Driver (Ev.Monitor TimeIter) (RBool stopCalc);
   Call SU2Driver (Ev.Output TimeIter) RNone].

(** [k] passes without stop signal for the counters [TimeIter],
    [TimeIter + 1], ..., followed, when [stopped], by one pass for
    [TimeIter + k] in which the signal is raised. *)
Definition iterations (block : Z -> bool -> list Event) (TimeIter : Z) (k : nat)
    (stopped : bool) : list Event :=
  concat (map (fun j => block (TimeIter + Z.of_nat j) false) (seq 0 k))
  ++ (if stopped then block (TimeIter + Z.of_nat k) true else []).

(** Every pass of [body] succeeds and leaves the events [block]. *)
Definition runs_as (body : Z -> M bool) (block : Z -> bool -> list Event) : Prop :=
  forall i s, exists b, value (body i s) = inr b /\ events (body i s) = block i b.

Definition is_DirectIteration (e : Event) : bool :=
  match e with Call SU2Driver (Ev.DirectIteration _) _ => true | _ => false end.

Definition is_Preprocess (e : Event) : bool :=
  match e with Call SU2Driver (Ev.Preprocess _) _ => true | _ => false end.

(** Number of events of a trace selected by [p]. *)
Definition count (p : Event -> bool) (tr : list Event) : nat :=
  length (List.filter p tr).

(** Steps taken by the direct loop and by the adjoint loop, read off their
    traces: a step is one call of [DirectIteration], respectively one call
    of [Preprocess]. *)
Definition direct_steps (tr : list Event) : nat := count is_DirectIteration tr.
Definition adjoint_steps (tr : list Event) : nat := count is_Preprocess tr.

(** The events of [banner]. *)
Definition banner_events (options : Options) (rank : Z) (text : string) : list Event :=
  (if bool_decide (rank = 0) then [Print [text]] else [])
  ++ Flush :: (if with_MPI options then [Barrier] else []).

(** The events that the direct and adjoint phases can leave. *)
Definition time_event (e : Event) : Prop :=
  match e with
  | Call SU2Driver m _ =>
      match m with
      | Ev.GetExtIter | Ev.GetnExtIter | Ev.DirectIteration _ | Ev.Preprocess _
      | Ev.Run | Ev.Postprocess | Ev.Update | Ev.Monitor _ | Ev.Output _ => True
      | _ => False
      end
  | Print args => args = [banner_flow] \/ args = [banner_adjoint]
  | Flush | Barrier => True
  | _ => False
  end.

(** What [boundary_marker] returns. *)
Definition marker_info (MarkerName : string) (s : St) : MarkerInfo :=
  match lookup_marker MarkerName (GetAllBoundaryMarkersTag W s)
          (GetAllBoundaryMarkers W s) with
  | Some id =>
      mkMarkerInfo (Some id) (Z.of_nat (GetNumberVertices W s id))
        (Z.of_nat (GetNumberHaloVertices W s id))
        (Z.of_nat (GetNumberVertices W s id) - Z.of_nat (GetNumberHaloVertices W s id))
  | None => mkMarkerInfo None 0 0 0
  end.

(** The events of [boundary_marker] for the tags, markers and counts the
    wrapper reports in state [s]. *)
Definition marker_events (MarkerName : string) (s : St) : list Event :=
  Call SU2Driver Ev.GetAllBoundaryMarkersTag (RTags (GetAllBoundaryMarkersTag W s))
  :: Call SU2Driver Ev.GetAllBoundaryMarkers (RMarkers (GetAllBoundaryMarkers W s))
  :: match lookup_marker MarkerName (GetAllBoundaryMarkersTag W s)
             (GetAllBoundaryMarkers W s) with
     | Some id =>
         [Call SU2Driver (Ev.GetNumberVertices id) (RCount (GetNumberVertices W s id));
          Call SU2Driver (Ev.GetNumberHaloVertices id)
            (RCount (GetNumberHaloVertices W s id))]
     | None => []
     end.

Definition is_vertex_query (e : Event) : bool :=
  match e with
  | Call _ (Ev.GetNumberVertices _) _ | Call _ (Ev.GetNumberHaloVertices _) _ => true
  | _ => false
  end.

(** Row [iPoint] of the adaptation data held by the wrapper in state [s],
    and the whole of it. *)
Definition adaptation_row (s : St) (nVar_Par iPoint : nat) : list V :=
  (fun iVar => GetAdaptationData W s iVar iPoint) <$> seq 0 nVar_Par.

Definition adaptation_data (s : St) : ndarray :=
  let nPoint_Local := GetnPointDomain W s 0 0 0 in
  let nVar_Par := GetnVarPar W s in
  mkArray (nPoint_Local, nVar_Par)
    (adaptation_row s nVar_Par <$> seq 0 nPoint_Local).

(** The events of filling the columns [from], ..., [from + len - 1] of row
    [iPoint], and the events of [extraction]. *)
Definition fill_events (s : St) (iPoint from len : nat) : list Event :=
  flat_map (fun iVar =>
      [Call SU2Error (Ev.GetAdaptationData iVar iPoint)
         (RFloat (GetAdaptationData W s iVar iPoint));
       Store iPoint iVar (GetAdaptationData W s iVar iPoint)])
    (seq from len).

Definition rows_events (s : St) (nVar_Par from len : nat) : list Event :=
  flat_map (fun iPoint =>
      fill_events s iPoint 0 nVar_Par ++ [PrintRow (adaptation_row s nVar_Par iPoint)])
    (seq from len).

Definition extraction_events (s : St) : list Event :=
  let nPoint_Local := GetnPointDomain W s 0 0 0 in
  let nVar_Par := GetnVarPar W s in
  Call SU2Driver (Ev.GetnPointDomain 0 0 0) (RCount nPoint_Local)
  :: Call SU2Error Ev.GetnVarPar (RCount nVar_Par)
  :: Alloc (nPoint_Local, nVar_Par)
  :: rows_events s nVar_Par 0 nPoint_Local.

(** The assignments to cells of [Sol] in a trace, in order. *)
Definition stores (tr : list Event) : list (nat * nat * V) :=
  flat_map (fun e => match e with Store iPoint iVar v => [(iPoint, iVar, v)] | _ => [] end) tr.

(** The events of [error_estimation] entered in state [s]. *)
Definition error_estimation_events (options : Options) (rank : Z) (s : St) : list Event :=
  let sx := SetAdaptationData W (ComputeMetric W s) in
  banner_events options rank banner_error
  ++ Call SU2Error Ev.ComputeMetric RNone
  :: Call SU2Error Ev.SetAdaptationData RNone
  :: extraction_events sx
  ++ [Call SU2Driver Ev.Postprocessing RNone; Del SU2Driver].

(** A print of one of the texts of the [TypeError] handler. *)
Definition is_diagnostic (e : Event) : bool :=
  match e with
  | Print [text] => String.eqb text msg_serial_build || String.eqb text msg_parallel_build
  | Print [text; _] => String.eqb text msg_TypeError
  | _ => false
  end.

(** An event of the error estimation phase or of the teardown. *)
Definition is_late (e : Event) : bool :=
  match e with
  | Call SU2Error _ _ | Call _ Ev.Postprocessing _ | Call _ (Ev.GetnPointDomain _ _ _) _
  | Alloc _ | Store _ _ _ | PrintRow _ | Del _ => true
  | Print [text] => String.eqb text banner_error
  | _ => false
  end.

(** A call on the error estimation driver asking for the point count. *)
Definition is_error_point_query (e : Event) : bool :=
  match e with
  | Call SU2Error (Ev.GetnPointDomain _ _ _) _ => true
  | _ => false
  end.

(** The local variables of [main] named in its two construction calls. *)
Definition comm_of (options : Options) : Comm :=
  if with_MPI options then COMM_WORLD else comm_0.
Definition rank_of (options : Options) : Z :=
  if with_MPI options then Get_rank W else 0.

(** What the handler prints for the exception [e], and how [main] ends
    after a constructor raised [e]. *)
Definition handler_events (options : Options) (e : Exn) : list Event :=
  match e with
  | TypeError exception =>
      [Print [msg_TypeError; exception]; Print [mismatch_message options]]
  | _ => []
  end.

Definition failure_outcome (e : Exn) : Exn + option ndarray :=
  match e with
  | TypeError _ => inr None
  | _ => inl e
  end.

(** ** Further vocabulary: arrays, output, phases *)

(** An array whose rows agree with its shape, as numpy keeps it. *)
Definition well_formed (a : ndarray) : Prop :=
  length (rows a) = (shape a).1
  /\ Forall (fun row => length row = (shape a).2) (rows a).

(** The rows printed by line 200, in order. *)
Definition printed (tr : list Event) : list (list V) :=
  flat_map (fun e => match e with PrintRow row => [row] | _ => [] end) tr.


(** A call that returned the stop signal. *)
Definition returned_stop (e : Event) : bool :=
  match e with
  | Call _ _ (RBool true) => true
  | _ => false
  end.

(** The banner prints, flushes and barriers of a trace, in order. *)
Definition is_announcement (e : Event) : bool :=
  match e with
  | Print _ | Flush | Barrier => true
  | _ => false
  end.

Definition announcements (tr : list Event) : list Event :=
  List.filter is_announcement tr.

(** One of the six calls of the adjoint loop body. *)
Definition is_adjoint_stage (e : Event) : bool :=
  match e with
  | Call SU2Driver m _ =>
      match m with
      | Ev.Preprocess _ | Ev.Run | Ev.Postprocess | Ev.Update
      | Ev.Monitor _ | Ev.Output _ => true
      | _ => false
      end
  | _ => false
  end.

(** Lines 203-206: the final [Postprocessing] and the [del]. *)
Definition is_teardown (e : Event) : bool :=
  match e with
  | Call _ Ev.Postprocessing _ | Del _ => true
  | _ => false
  end.

(** A barrier, and a print of one of the three phase banners. *)
Definition is_barrier (e : Event) : bool :=
  match e with Barrier => true | _ => false end.

Definition is_banner (e : Event) : bool :=
  match e with
  | Print [text] =>
      String.eqb text banner_flow || String.eqb text banner_adjoint
      || String.eqb text banner_error
  | _ => false
  end.

(** The events of a time phase (lines 121-138, 140-167) entered in state
    [s], whose loop made [k] passes without stop signal and, when
    [stopped], one more with it. *)
Definition phase_events (options : Options) (rank : Z) (text : string)
    (block : Z -> bool -> list Event) (s : St) (k : nat) (stopped : bool) : list Event :=
  Call SU2Driver Ev.GetExtIter (RInt (GetExtIter W s))
  :: Call SU2Driver Ev.GetnExtIter (RInt (GetnExtIter W s))
  :: banner_events options rank text
  ++ iterations block (GetExtIter W s) k stopped.

(** ** Three statements that the script does not satisfy *)

(** Every resolved marker has a non-negative physical count, a driver
    that reports otherwise being stopped by an exception. *)
Definition physical_count_checked (MarkerName : string) (s : St) : Prop :=
  match value (boundary_marker MarkerName s) with
  | inr info =>
      MarkerID info <> None ->
      nVertex_Marker info = nVertex_Marker_PHYS info + nVertex_Marker_HALO info
      /\ 0 <= nVertex_Marker_PHYS info
  | inl _ => True
  end.

(** Whenever a constructor raises, the mismatch text chosen by the
    parallel flag is printed and nothing of a later phase happens. *)
Definition failure_always_diagnosed (options : Options) (s : St) : Prop :=
  forall o e,
    In (Construct o (Some e)) (events (main options s)) ->
    In (Print [mismatch_message options]) (events (main options s))
    /\ existsb is_late (events (main options s)) = false.

(** The point count that sizes the array is asked of the error estimation
    driver, as is the variable count. *)
Definition point_count_from_error_driver (tr : list Event) : Prop :=
  exists n m,
    In (Call SU2Error (Ev.GetnPointDomain 0 0 0) (RCount n)) tr
    /\ In (Call SU2Error Ev.GetnVarPar (RCount m)) tr
    /\ In (Alloc (n, m)) tr.

End Launch.

Arguments mkRes {St V A} _ _ _.
Arguments events {St V A} _.
Arguments value {St V A} _.
Arguments world {St V A} _.

(** ** Concrete wrappers

    A small stateful stand-in for [pysu2ad], used to run the script: the
    state counts the solver steps taken, the constructors raise what they
    are told to, and the adaptation data is read from a table of rows. *)
Definition demo_wrapper (raise1 raise2 : option Exn) (tags : list string)
    (ids : gmap string Z) (nVertex nHalo : nat) (nExtIter : Z)
    (stop_direct stop_adjoint : Z -> bool) (table : list (list Z)) : @Wrapper nat Z :=
  {| Get_rank := 0;
     CDiscAdjSinglezoneDriver := fun _ _ _ _ s =>
       match raise1 with Some e => inl e | None => inr s end;
     GetAllBoundaryMarkersTag := fun _ => tags;
     GetAllBoundaryMarkers := fun _ => ids;
     GetNumberVertices := fun _ _ => nVertex;
     GetNumberHaloVertices := fun _ _ => nHalo;
     GetExtIter := fun _ => 0;
     GetnExtIter := fun _ => nExtIter;
     DirectIteration := fun i s => (stop_direct i, S s);
     Preprocess := fun _ s => s;
     Run := fun s => S s;
     Postprocess := fun s => s;
     Update := fun s => s;
     Monitor := fun i s => (stop_adjoint i, s);
     Output := fun _ s => s;
     GetnPointDomain := fun _ _ _ _ => length table;
     Postprocessing := fun s => s;
     CErrorEstimationDriver := fun _ _ _ s =>
       match raise2 with Some e => inl e | None => inr s end;
     ComputeMetric := fun s => s;
     SetAdaptationData := fun s => s;
     GetnVarPar := fun _ => length (hd [] table);
     GetAdaptationData := fun _ iVar iPoint => nth iVar (nth iPoint table []) 0 |}.

Definition serial_options : Options := mkOptions (Some "inv_NACA0012.cfg") 2 1 false.
Definition parallel_options : Options := mkOptions (Some "inv_NACA0012.cfg") 2 1 true.

(** Three points, two variables, values [[1,2],[3,4],[5,6]]; the marker is
    resolved with five vertices of which two are halo; the direct solve
    stops at counter 1 and the adjoint solve at counter 2 of 4. *)
Definition scenario_D : @Wrapper nat Z :=
  demo_wrapper None None ["airfoil"; "farfield"] {[ "airfoil" := 0 ]} 5 2 4
    (fun i => bool_decide (i = 1)) (fun i => bool_decide (i = 2))
    [[1; 2]; [3; 4]; [5; 6]].

(** The tag exists but this rank has no marker for it. *)
Definition scenario_C : @Wrapper nat Z :=
  demo_wrapper None None ["airfoil"; "farfield"] {[ "farfield" := 1 ]} 5 2 4
    (fun _ => false) (fun _ => false) [[1; 2]; [3; 4]; [5; 6]].

(** The driver reports more halo vertices than vertices. *)
Definition halo_exceeds_total : @Wrapper nat Z :=
  demo_wrapper None None ["airfoil"] {[ "airfoil" := 0 ]} 1 2 1
    (fun _ => false) (fun _ => false) [[1; 2]].

(** Constructors that raise. *)
Definition direct_TypeError : @Wrapper nat Z :=
  demo_wrapper (Some (TypeError "in method 'new_CDiscAdjSinglezoneDriver'")) None
    ["airfoil"] {[ "airfoil" := 0 ]} 5 2 1 (fun _ => false) (fun _ => false) [[1; 2]].
Definition direct_RuntimeError : @Wrapper nat Z :=
  demo_wrapper (Some (OtherError "RuntimeError" "config file not found")) None
    ["airfoil"] {[ "airfoil" := 0 ]} 5 2 1 (fun _ => false) (fun _ => false) [[1; 2]].
Definition error_TypeError : @Wrapper nat Z :=
  demo_wrapper None (Some (TypeError "in method 'new_CErrorEstimationDriver'"))
    ["airfoil"] {[ "airfoil" := 0 ]} 5 2 1 (fun _ => false) (fun _ => false) [[1; 2]].
Definition error_RuntimeError : @Wrapper nat Z :=
  demo_wrapper None (Some (OtherError "RuntimeError" "no adjoint solution"))
    ["airfoil"] {[ "airfoil" := 0 ]} 5 2 1 (fun _ => false) (fun _ => false) [[1; 2]].

(** Scenario D as seen from rank 1 of a parallel run. *)
Definition scenario_D_rank_1 : @Wrapper nat Z :=
  {| Get_rank := 1;
     CDiscAdjSinglezoneDriver := CDiscAdjSinglezoneDriver scenario_D;
     GetAllBoundaryMarkersTag := GetAllBoundaryMarkersTag scenario_D;
     GetAllBoundaryMarkers := GetAllBoundaryMarkers scenario_D;
     GetNumberVertices := GetNumberVertices scenario_D;
     GetNumberHaloVertices := GetNumberHaloVertices scenario_D;
     GetExtIter := GetExtIter scenario_D;
     GetnExtIter := GetnExtIter scenario_D;
     DirectIteration := DirectIteration scenario_D;
     Preprocess := Preprocess scenario_D;
     Run := Run scenario_D;
     Postprocess := Postprocess scenario_D;
     Update := Update scenario_D;
     Monitor := Monitor scenario_D;
     Output := Output scenario_D;
     GetnPointDomain := GetnPointDomain scenario_D;
     Postprocessing := Postprocessing scenario_D;
     CErrorEstimationDriver := CErrorEstimationDriver scenario_D;
     ComputeMetric := ComputeMetric scenario_D;
     SetAdaptationData := SetAdaptationData scenario_D;
     GetnVarPar := GetnVarPar scenario_D;
     GetAdaptationData := GetAdaptationData scenario_D |}.

Section Facts.

Context {St V : Type} (zero : V) (W : @Wrapper St V).

(** ** The time loops *)

Lemma time_loop_eq (body : Z -> @M St V bool) (nTimeIter TimeIter : Z) (s : St) :
  time_loop body nTimeIter TimeIter s =
  if decide (TimeIter < nTimeIter)
  then (body TimeIter ≫= fun stopCalc : bool =>
        if stopCalc then (mret TimeIter : @M St V Z)
        else time_loop body nTimeIter (TimeIter + 1)) s
  else (mret TimeIter : @M St V Z) s.
Proof.
  rewrite time_loop_equation_1.
  destruct (decide (TimeIter < nTimeIter)); reflexivity.
Qed.

Lemma iterations_cons (block : Z -> bool -> list (@Event V)) TimeIter k stopped :
  iterations block TimeIter (S k) stopped =
  block TimeIter false ++ iterations block (TimeIter + 1) k stopped.
Proof.
  unfold iterations. rewrite <- cons_seq, <- seq_shift. simpl.
  rewrite Z.add_0_r, <- app_assoc. f_equal.
  rewrite map_map. f_equal.
  - f_equal. apply map_ext. intros j. f_equal. lia.
  - destruct stopped; [f_equal; lia | reflexivity].
Qed.

Lemma time_loop_shape (body : Z -> @M St V bool) (block : Z -> bool -> list (@Event V)) :
  runs_as body block ->
  forall nTimeIter TimeIter s,
  exists (k : nat) (stopped : bool),
    events (time_loop body nTimeIter TimeIter s) = iterations block TimeIter k stopped
    /\ value (time_loop body nTimeIter TimeIter s) = inr (TimeIter + Z.of_nat k)
    /\ (if stopped then TimeIter + Z.of_nat k < nTimeIter
        else Z.of_nat k = Z.max 0 (nTimeIter - TimeIter)).
Proof.
  intros Hbody nTimeIter TimeIter s.
  remember (Z.to_nat (nTimeIter - TimeIter)) as n eqn:Hn.
  revert TimeIter s Hn. induction n as [n IH] using lt_wf_ind. intros TimeIter s Hn.
  rewrite time_loop_eq. destruct (decide (TimeIter < nTimeIter)) as [Hlt|Hge].
  - destruct (Hbody TimeIter s) as (b & Hv & He).
    unfold mbind, M_bind. rewrite Hv. destruct b.
    + exists 0%nat, true. simpl. unfold iterations. simpl.
      rewrite He, Z.add_0_r, app_nil_r. split; [reflexivity | split; [reflexivity | lia]].
    + destruct (IH (Z.to_nat (nTimeIter - (TimeIter + 1))) ltac:(lia)
                  (TimeIter + 1) (world (body TimeIter s)) eq_refl)
        as (k & stopped & Hev & Hval & Hk).
      exists (S k), stopped. simpl. rewrite Hev, Hval, He, iterations_cons.
      split; [reflexivity | split].
      * f_equal. lia.
      * destruct stopped; lia.
  - exists 0%nat, false. simpl. unfold iterations. simpl.
    rewrite Z.add_0_r. split; [reflexivity | split; [reflexivity | lia]].
Qed.

Lemma direct_body_runs_as : runs_as (direct_body W) direct_stage.
Proof. intros i s. eexists. split; reflexivity. Qed.

Lemma adjoint_body_runs_as : runs_as (adjoint_body W) adjoint_stages.
Proof. intros i s. eexists. split; reflexivity. Qed.

Lemma iterations_snoc (block : Z -> bool -> list (@Event V)) TimeIter k :
  iterations block TimeIter (S k) false =
  iterations block TimeIter k false ++ block (TimeIter + Z.of_nat k) false.
Proof.
  unfold iterations. rewrite seq_S, map_app, concat_app. simpl.
  rewrite !app_nil_r. reflexivity.
Qed.

Lemma count_app (p : @Event V -> bool) tr1 tr2 :
  count p (tr1 ++ tr2) = (count p tr1 + count p tr2)%nat.
Proof. unfold count. rewrite List.filter_app, length_app. reflexivity. Qed.

Lemma count_iterations (p : @Event V -> bool) (block : Z -> bool -> list (@Event V)) :
  (forall i b, count p (block i b) = 1%nat) ->
  forall TimeIter k stopped,
    count p (iterations block TimeIter k stopped) = (k + if stopped then 1 else 0)%nat.
Proof.
  intros Hone TimeIter k stopped.
  assert (Hfalse : count p (iterations block TimeIter k false) = k).
  { induction k as [|k IH]; [reflexivity |].
    rewrite iterations_snoc, count_app, IH, Hone. lia. }
  destruct stopped; [| lia].
  unfold iterations in *. rewrite app_nil_r in Hfalse.
  rewrite count_app, Hfalse, Hone. reflexivity.
Qed.

Lemma iterations_stop_inv (block : Z -> bool -> list (@Event V)) TimeIter k stopped e :
  (forall i, ~ In e (block i false)) ->
  In e (iterations block TimeIter k stopped) ->
  stopped = true /\ In e (block (TimeIter + Z.of_nat k) true).
Proof.
  intros Hnot Hin. unfold iterations in Hin. apply in_app_or in Hin as [Hin|Hin].
  - apply in_concat in Hin as (l & Hl & He). apply in_map_iff in Hl as (j & <- & _).
    destruct (Hnot _ He).
  - destruct stopped; [split; [reflexivity | exact Hin] | destruct Hin].
Qed.

Lemma direct_steps_iterations TimeIter k stopped :
  direct_steps (V:=V) (iterations direct_stage TimeIter k stopped)
  = (k + if stopped then 1 else 0)%nat.
Proof. apply count_iterations. reflexivity. Qed.

Lemma adjoint_steps_iterations TimeIter k stopped :
  adjoint_steps (V:=V) (iterations adjoint_stages TimeIter k stopped)
  = (k + if stopped then 1 else 0)%nat.
Proof. apply count_iterations. reflexivity. Qed.

Lemma direct_stop_inv TimeIter k stopped i :
  In (Call SU2Driver (Ev.DirectIteration i) (RBool true))
     (iterations (V:=V) direct_stage TimeIter k stopped) ->
  stopped = true /\ i = TimeIter + Z.of_nat k.
Proof.
  intros Hin. apply iterations_stop_inv in Hin as [-> Hin].
  - split; [reflexivity |]. destruct Hin as [Heq|[]]. congruence.
  - intros j [Heq|[]]. discriminate.
Qed.

Lemma adjoint_stop_inv TimeIter k stopped i :
  In (Call SU2Driver (Ev.Monitor i) (RBool true))
     (iterations (V:=V) adjoint_stages TimeIter k stopped) ->
  stopped = true /\ i = TimeIter + Z.of_nat k.
Proof.
  intros Hin. apply iterations_stop_inv in Hin as [-> Hin].
  - split; [reflexivity |]. simpl in Hin.
    repeat (destruct Hin as [Heq|Hin]; [try discriminate |]); [congruence | destruct Hin].
  - intros j Hj. simpl in Hj.
    repeat (destruct Hj as [Heq|Hj]; [discriminate |]). destruct Hj.
Qed.

Lemma adjoint_loop_first_pass (nTimeIter TimeIter : Z) (s : St) :
  TimeIter < nTimeIter ->
  exists rest,
    events (adjoint_loop W nTimeIter TimeIter s)
    = adjoint_stages TimeIter
        (Monitor W TimeIter
           (Update W (Postprocess W (Run W (Preprocess W TimeIter s))))).1
      ++ rest.
Proof.
  intros Hlt. unfold adjoint_loop. rewrite time_loop_eq.
  destruct (decide (TimeIter < nTimeIter)); [| lia].
  unfold mbind at 1, M_bind at 1.
  assert (Hbody : adjoint_body W TimeIter s
                  = mkRes (adjoint_stages TimeIter
                             (Monitor W TimeIter
                                (Update W (Postprocess W (Run W (Preprocess W TimeIter s))))).1)
                      (inr (Monitor W TimeIter
                              (Update W (Postprocess W (Run W (Preprocess W TimeIter s))))).1)
                      (Output W TimeIter
                         (Monitor W TimeIter
                            (Update W (Postprocess W (Run W (Preprocess W TimeIter s))))).2))
    by reflexivity.
  rewrite Hbody. cbn [value events world]. eexists. reflexivity.
Qed.

(** C2.  The trace of the adjoint loop is a sequence of complete
    six-stage passes, [Preprocess(i)], [Run], [Postprocess], [Update],
    [Monitor(i)], [Output(i)], for consecutive counters, of which only the
    last can carry the stop signal.  The number of passes is that of the
    loop: the counter ends at [TimeIter] plus the number of passes without
    stop signal, a pass with the stop signal has its counter below
    [nTimeIter], and without one there are [max 0 (nTimeIter - TimeIter)]
    passes; so whenever [TimeIter < nTimeIter] the trace opens with the
    complete pass for [TimeIter], carrying the signal [Monitor] returned
    on the state left by [Update].  Whenever [Monitor(i)] returns the stop
    signal the trace ends with the complete pass for that same [i],
    [Output(i)] included. *)
Theorem adjoint_stage_order (nTimeIter TimeIter : Z) (s : St) :
  let tr := events (adjoint_loop W nTimeIter TimeIter s) in
  (exists (k : nat) (stopped : bool),
      tr = iterations adjoint_stages TimeIter k stopped
      /\ value (adjoint_loop W nTimeIter TimeIter s) = inr (TimeIter + Z.of_nat k)
      /\ (if stopped then TimeIter + Z.of_nat k < nTimeIter
          else Z.of_nat k = Z.max 0 (nTimeIter - TimeIter))
      /\ adjoint_steps tr = (k + if stopped then 1 else 0)%nat)
  /\ (forall i, In (Call SU2Driver (Ev.Monitor i) (RBool true)) tr ->
        exists pre, tr = pre ++ adjoint_stages i true)
  /\ (TimeIter < nTimeIter ->
      exists rest,
        tr = adjoint_stages TimeIter
               (Monitor W TimeIter
                  (Update W (Postprocess W (Run W (Preprocess W TimeIter s))))).1
             ++ rest).
Proof.
  intros tr. subst tr.
  split; [| split; [| apply adjoint_loop_first_pass]].
  - unfold adjoint_loop.
    destruct (time_loop_shape _ _ adjoint_body_runs_as nTimeIter TimeIter s)
      as (k & stopped & Hev & Hval & Hk).
    exists k, stopped. rewrite Hev, adjoint_steps_iterations.
    split; [reflexivity | split; [exact Hval | split; [exact Hk | reflexivity]]].
  - unfold adjoint_loop.
    destruct (time_loop_shape _ _ adjoint_body_runs_as nTimeIter TimeIter s)
      as (k & stopped & Hev & _ & _).
    intros i Hin. rewrite Hev in Hin |- *.
    apply adjoint_stop_inv in Hin as [-> ->].
    eexists. reflexivity.
Qed.

Lemma direct_loop_first_stop (nTimeIter TimeIter : Z) (s : St) :
  TimeIter < nTimeIter ->
  (DirectIteration W TimeIter s).1 = true ->
  direct_loop W nTimeIter TimeIter s
  = mkRes (direct_stage TimeIter true) (inr TimeIter) (DirectIteration W TimeIter s).2.
Proof.
  intros Hlt Hstop. unfold direct_loop. rewrite time_loop_eq.
  destruct (decide (TimeIter < nTimeIter)); [| lia].
  unfold mbind, M_bind, direct_body, step. simpl. rewrite Hstop. reflexivity.
Qed.

(** C3.  Both time loops take at most [nTimeIter - TimeIter] steps and
    none when [nTimeIter <= TimeIter]; when the stop signal is returned
    for the counter [i], the loop has taken [i - TimeIter + 1] steps, which
    is fewer than [nTimeIter - TimeIter] when [i] is not the last counter
    below [nTimeIter]; and a stop signal on the first direct step leaves
    exactly that one step. *)
Theorem time_loops_bounded (nTimeIter TimeIter : Z) (s : St) :
  let direct := events (direct_loop W nTimeIter TimeIter s) in
  let adjoint := events (adjoint_loop W nTimeIter TimeIter s) in
  (Z.of_nat (direct_steps direct) <= Z.max 0 (nTimeIter - TimeIter)
   /\ Z.of_nat (adjoint_steps adjoint) <= Z.max 0 (nTimeIter - TimeIter))
  /\ (nTimeIter <= TimeIter -> direct = [] /\ adjoint = [])
  /\ (forall i, In (Call SU2Driver (Ev.DirectIteration i) (RBool true)) direct ->
        Z.of_nat (direct_steps direct) = i - TimeIter + 1
        /\ (i + 1 < nTimeIter ->
            Z.of_nat (direct_steps direct) < nTimeIter - TimeIter))
  /\ (forall i, In (Call SU2Driver (Ev.Monitor i) (RBool true)) adjoint ->
        Z.of_nat (adjoint_steps adjoint) = i - TimeIter + 1
        /\ (i + 1 < nTimeIter ->
            Z.of_nat (adjoint_steps adjoint) < nTimeIter - TimeIter))
  /\ (TimeIter < nTimeIter -> (DirectIteration W TimeIter s).1 = true ->
        direct = direct_stage TimeIter true
        /\ direct_steps direct = 1%nat
        /\ value (direct_loop W nTimeIter TimeIter s) = inr TimeIter).
Proof.
  intros direct adjoint.
  assert (Hfirst : TimeIter < nTimeIter -> (DirectIteration W TimeIter s).1 = true ->
                   direct = direct_stage TimeIter true
                   /\ direct_steps direct = 1%nat
                   /\ value (direct_loop W nTimeIter TimeIter s) = inr TimeIter).
  { intros Hlt Hstop. subst direct.
    rewrite (direct_loop_first_stop _ _ _ Hlt Hstop). repeat split. }
  revert Hfirst. subst direct adjoint. unfold direct_loop, adjoint_loop.
  destruct (time_loop_shape _ _ direct_body_runs_as nTimeIter TimeIter s)
    as (kd & sd & Hd & _ & Hkd).
  destruct (time_loop_shape _ _ adjoint_body_runs_as nTimeIter TimeIter s)
    as (ka & sa & Ha & _ & Hka).
  intros Hfirst.
  rewrite Hd, Ha, direct_steps_iterations, adjoint_steps_iterations in *.
  split; [split | split; [| split; [| split]]].
  - destruct sd; lia.
  - destruct sa; lia.
  - intros Hle. split.
    + destruct sd; [lia |]. destruct kd; [reflexivity | lia].
    + destruct sa; [lia |]. destruct ka; [reflexivity | lia].
  - intros i Hin. apply direct_stop_inv in Hin as [-> ->]. lia.
  - intros i Hin. apply adjoint_stop_inv in Hin as [-> ->]. lia.
  - exact Hfirst.
Qed.

(** ** The boundary marker *)

Lemma lookup_marker_Some (MarkerName : string) (MarkerList : list string)
    (allMarkerIDs : gmap string Z) (id : Z) :
  lookup_marker MarkerName MarkerList allMarkerIDs = Some id
  <-> MarkerName ∈ MarkerList /\ allMarkerIDs !! MarkerName = Some id.
Proof.
  unfold lookup_marker. split.
  - destruct (bool_decide (MarkerName ∈ MarkerList)) eqn:Htag; simpl; [| discriminate].
    apply bool_decide_eq_true in Htag.
    destruct (bool_decide (MarkerName ∈ dom allMarkerIDs)); [| discriminate].
    intros Hid. split; assumption.
  - intros [Htag Hid].
    rewrite (bool_decide_eq_true_2 _ Htag). simpl.
    rewrite bool_decide_eq_true_2; [exact Hid |].
    apply elem_of_dom. exists id. exact Hid.
Qed.

Lemma lookup_marker_None (MarkerName : string) (MarkerList : list string)
    (allMarkerIDs : gmap string Z) :
  lookup_marker MarkerName MarkerList allMarkerIDs = None
  <-> MarkerName ∉ MarkerList \/ MarkerName ∉ dom allMarkerIDs.
Proof.
  unfold lookup_marker. split.
  - destruct (bool_decide (MarkerName ∈ MarkerList)) eqn:Htag; simpl.
    + destruct (bool_decide (MarkerName ∈ dom allMarkerIDs)) eqn:Hdom.
      * intros Hid. right. apply not_elem_of_dom. exact Hid.
      * intros _. right. apply bool_decide_eq_false in Hdom. exact Hdom.
    + intros _. left. apply bool_decide_eq_false in Htag. exact Htag.
  - intros [Htag|Hdom].
    + rewrite (bool_decide_eq_false_2 _ Htag). reflexivity.
    + rewrite (bool_decide_eq_false_2 _ Hdom), andb_false_r. reflexivity.
Qed.

Lemma boundary_marker_eq (MarkerName : string) (s : St) :
  boundary_marker W MarkerName s
  = mkRes (marker_events W MarkerName s) (inr (marker_info W MarkerName s)) s.
Proof.
  unfold boundary_marker, marker_events, marker_info, mbind, M_bind, query. simpl.
  destruct (lookup_marker _ _ _); reflexivity.
Qed.

(** C5.  The marker resolves only if the name is both a boundary tag and
    a key of the markers of this rank; if it is missing from either, the
    lookup completes without exception with no marker and with the total,
    halo and physical counts all zero. *)
Theorem marker_usable_iff_in_both (MarkerName : string) (s : St) :
  let MarkerList := GetAllBoundaryMarkersTag W s in
  let allMarkerIDs := GetAllBoundaryMarkers W s in
  exists info,
    value (boundary_marker W MarkerName s) = inr info
    /\ (forall id, MarkerID info = Some id ->
          MarkerName ∈ MarkerList /\ MarkerName ∈ dom allMarkerIDs
          /\ allMarkerIDs !! MarkerName = Some id)
    /\ (MarkerName ∉ MarkerList \/ MarkerName ∉ dom allMarkerIDs ->
          info = mkMarkerInfo None 0 0 0).
Proof.
  intros MarkerList allMarkerIDs. rewrite boundary_marker_eq. simpl.
  exists (marker_info W MarkerName s). split; [reflexivity |].
  unfold marker_info. fold MarkerList allMarkerIDs. split.
  - intros id Hid.
    destruct (lookup_marker MarkerName MarkerList allMarkerIDs) as [id'|] eqn:Hl;
      [| discriminate].
    simpl in Hid. injection Hid as ->.
    apply lookup_marker_Some in Hl as [Htag Hl].
    repeat split; [exact Htag | | exact Hl]. apply elem_of_dom. eauto.
  - intros Hmiss. apply lookup_marker_None in Hmiss. rewrite Hmiss. reflexivity.
Qed.

(** C6, as the code has it.  For a resolved marker the total is the
    physical count plus the halo count, and the physical count, computed
    as total minus halo without any check, is non-negative exactly when
    the halo count reported by the driver does not exceed the total; the
    lookup raises no exception whatever the driver reports. *)
Theorem marker_counts_unchecked (MarkerName : string) (s : St) :
  exists info,
    value (boundary_marker W MarkerName s) = inr info
    /\ (forall id, MarkerID info = Some id ->
          nVertex_Marker info = Z.of_nat (GetNumberVertices W s id)
          /\ nVertex_Marker_HALO info = Z.of_nat (GetNumberHaloVertices W s id)
          /\ nVertex_Marker info = nVertex_Marker_PHYS info + nVertex_Marker_HALO info
          /\ (0 <= nVertex_Marker_PHYS info
              <-> (GetNumberHaloVertices W s id <= GetNumberVertices W s id)%nat)).
Proof.
  rewrite boundary_marker_eq. simpl.
  exists (marker_info W MarkerName s). split; [reflexivity |].
  unfold marker_info. intros id.
  destruct (lookup_marker _ _ _) as [id'|]; [| discriminate].
  simpl. intros Hid. injection Hid as ->. repeat split; lia.
Qed.

Lemma boundary_marker_vertex_queries (MarkerName : string) (s : St) :
  let r := boundary_marker W MarkerName s in
  exists info,
    value r = inr info
    /\ (forall o id c,
          In (Call o (Ev.GetNumberVertices id) c) (events r)
          \/ In (Call o (Ev.GetNumberHaloVertices id) c) (events r) ->
          MarkerID info = Some id)
    /\ (MarkerID info = None ->
          events r =
            [Call SU2Driver Ev.GetAllBoundaryMarkersTag
               (RTags (GetAllBoundaryMarkersTag W s));
             Call SU2Driver Ev.GetAllBoundaryMarkers
               (RMarkers (GetAllBoundaryMarkers W s))]
          /\ existsb is_vertex_query (events r) = false
          /\ nVertex_Marker info = 0
          /\ nVertex_Marker_HALO info = 0
          /\ nVertex_Marker_PHYS info = 0).
Proof.
  intros r. subst r. rewrite boundary_marker_eq. simpl.
  exists (marker_info W MarkerName s). split; [reflexivity |].
  unfold marker_info, marker_events.
  destruct (lookup_marker _ _ _) as [id'|]; simpl; split.
  - intros o id c [H|H];
      repeat (destruct H as [H|H]; [try discriminate; try (injection H as _ ->; reflexivity) |]);
      destruct H.
  - discriminate.
  - intros o id c [H|H];
      repeat (destruct H as [H|H]; [discriminate |]); destruct H.
  - intros _. repeat split.
Qed.

(** ** The adaptation data *)

Lemma alter_middle {A} (f : A -> A) (l1 l2 : list A) (x : A) (i : nat) :
  length l1 = i -> alter f i (l1 ++ x :: l2) = l1 ++ f x :: l2.
Proof.
  intros <-. rewrite alter_app_r_alt by lia. rewrite Nat.sub_diag. reflexivity.
Qed.

Lemma insert_middle {A} (l1 l2 : list A) (x y : A) (i : nat) :
  length l1 = i -> <[i := y]> (l1 ++ x :: l2) = l1 ++ y :: l2.
Proof.
  intros <-. rewrite insert_app_r_alt by lia. rewrite Nat.sub_diag. reflexivity.
Qed.

Lemma bind_eq {A B} (m : @M St V A) (k : A -> @M St V B) (s s' : St)
    (ev : list (@Event V)) (a : A) :
  m s = mkRes ev (inr a) s' ->
  (m ≫= k) s = mkRes (ev ++ events (k a s')) (value (k a s')) (world (k a s')).
Proof. intros Hm. unfold mbind, M_bind. rewrite Hm. reflexivity. Qed.

Lemma fill_cell_eq (s : St) (n m iPoint iVar : nat) (before after : list (list V))
    (filled rest : list V) (x : V) :
  length before = iPoint -> (iPoint < n)%nat ->
  length filled = iVar -> (iVar < m)%nat ->
  fill_cell W iPoint (mkArray (n, m) (before ++ (filled ++ x :: rest) :: after)) iVar s
  = mkRes
      [Call SU2Error (Ev.GetAdaptationData iVar iPoint)
         (RFloat (GetAdaptationData W s iVar iPoint));
       Store iPoint iVar (GetAdaptationData W s iVar iPoint)]
      (inr (mkArray (n, m)
              (before ++ (filled ++ GetAdaptationData W s iVar iPoint :: rest) :: after)))
      s.
Proof.
  intros Hbefore Hi Hfilled Hj.
  unfold fill_cell, mbind, M_bind, query, store, setitem. cbn [value events world shape fst snd rows].
  rewrite bool_decide_eq_true_2 by lia.
  rewrite (alter_middle _ _ _ _ _ Hbefore), (insert_middle _ _ _ _ _ Hfilled).
  reflexivity.
Qed.

Lemma fill_cells_from (s : St) (n m iPoint : nat) (before after : list (list V))
    (len : nat) :
  forall (from : nat) (filled rest : list V),
  length before = iPoint -> (iPoint < n)%nat ->
  length filled = from -> length rest = len -> m = (from + len)%nat ->
  for_each (fill_cell W iPoint) (seq from len)
    (mkArray (n, m) (before ++ (filled ++ rest) :: after)) s
  = mkRes (fill_events W s iPoint from len)
      (inr (mkArray (n, m)
              (before ++
               (filled ++ ((fun iVar => GetAdaptationData W s iVar iPoint) <$> seq from len))
               :: after)))
      s.
Proof.
  induction len as [|len IH]; intros from filled rest Hbefore Hi Hfilled Hrest Hm.
  - destruct rest; [| discriminate]. reflexivity.
  - destruct rest as [|x rest]; [discriminate |]. injection Hrest as Hrest.
    cbn [seq for_each].
    erewrite bind_eq by (apply fill_cell_eq; try assumption; lia).
    replace (filled ++ GetAdaptationData W s from iPoint :: rest)
      with ((filled ++ [GetAdaptationData W s from iPoint]) ++ rest)
      by (rewrite <- app_assoc; reflexivity).
    rewrite (IH (S from) (filled ++ [GetAdaptationData W s from iPoint]) rest);
      try assumption; try lia;
      [| rewrite length_app; simpl; lia].
    cbn [value events world app]. unfold fill_events. cbn [flat_map app seq fmap list_fmap].
    rewrite <- app_assoc. reflexivity.
Qed.

Lemma fill_row_eq (s : St) (n m iPoint : nat) (before after : list (list V)) :
  length before = iPoint -> (iPoint < n)%nat ->
  fill_row W m iPoint (mkArray (n, m) (before ++ replicate m zero :: after)) s
  = mkRes (fill_events W s iPoint 0 m)
      (inr (mkArray (n, m) (before ++ adaptation_row W s m iPoint :: after))) s.
Proof.
  intros Hbefore Hi. unfold fill_row.
  apply (fill_cells_from s n m iPoint before after m 0%nat [] (replicate m zero));
    try assumption; try reflexivity.
  apply length_replicate.
Qed.

Lemma fill_point_eq (s : St) (n m iPoint : nat) (before after : list (list V)) :
  length before = iPoint -> (iPoint < n)%nat ->
  fill_point W m (mkArray (n, m) (before ++ replicate m zero :: after)) iPoint s
  = mkRes (fill_events W s iPoint 0 m ++ [PrintRow (adaptation_row W s m iPoint)])
      (inr (mkArray (n, m) (before ++ adaptation_row W s m iPoint :: after))) s.
Proof.
  intros Hbefore Hi. unfold fill_point.
  erewrite bind_eq by (apply fill_row_eq; assumption).
  unfold mbind, M_bind, print_row, getrow. cbn [shape fst rows].
  rewrite bool_decide_eq_true_2 by lia.
  rewrite list_lookup_middle by (symmetry; assumption).
  reflexivity.
Qed.

Lemma fill_points_from (s : St) (n m len : nat) :
  forall (from : nat) (filled : list (list V)),
  length filled = from -> n = (from + len)%nat ->
  for_each (fill_point W m) (seq from len)
    (mkArray (n, m) (filled ++ replicate len (replicate m zero))) s
  = mkRes (rows_events W s m from len)
      (inr (mkArray (n, m) (filled ++ (adaptation_row W s m <$> seq from len)))) s.
Proof.
  induction len as [|len IH]; intros from filled Hfilled Hn.
  - reflexivity.
  - cbn [seq for_each replicate].
    erewrite bind_eq by (apply fill_point_eq; try assumption; lia).
    replace (filled ++ adaptation_row W s m from :: replicate len (replicate m zero))
      with ((filled ++ [adaptation_row W s m from]) ++ replicate len (replicate m zero))
      by (rewrite <- app_assoc; reflexivity).
    rewrite (IH (S from) (filled ++ [adaptation_row W s m from]));
      [| rewrite length_app; simpl; lia | lia].
    cbn [value events world]. unfold rows_events.
    cbn [flat_map seq fmap list_fmap].
    rewrite <- !app_assoc. reflexivity.
Qed.

Lemma extraction_eq (s : St) :
  extraction zero W s
  = mkRes (extraction_events W s) (inr (adaptation_data W s)) s.
Proof.
  pose proof (fill_points_from s (GetnPointDomain W s 0 0 0) (GetnVarPar W s)
                (GetnPointDomain W s 0 0 0) 0%nat [] eq_refl eq_refl) as Hfill.
  cbn [app] in Hfill.
  unfold extraction, mbind, M_bind, query, emit, np_zeros.
  cbn [value events world fst snd].
  rewrite Hfill. reflexivity.
Qed.

(** ** The phases and [main] *)

Lemma banner_eq (options : Options) (rank : Z) (text : string) (s : St) :
  banner (V:=V) options rank text s = mkRes (banner_events options rank text) (inr tt) s.
Proof.
  unfold banner, banner_events, mbind, M_bind, emit.
  destruct (bool_decide (rank = 0)), (with_MPI options); reflexivity.
Qed.

Lemma Forall_iterations (P : @Event V -> Prop) (block : Z -> bool -> list (@Event V)) :
  (forall i b, Forall P (block i b)) ->
  forall TimeIter k stopped, Forall P (iterations block TimeIter k stopped).
Proof.
  intros Hblock TimeIter k stopped. unfold iterations. apply Forall_app. split.
  - apply Forall_concat, Forall_forall. intros l Hl.
    apply list_elem_of_In, in_map_iff in Hl as (j & <- & _). apply Hblock.
  - destruct stopped; [apply Hblock | constructor].
Qed.

Lemma time_event_banner (options : Options) (rank : Z) (text : string) :
  text = banner_flow \/ text = banner_adjoint ->
  Forall (time_event (V:=V)) (banner_events options rank text).
Proof.
  intros Htext. unfold banner_events.
  assert (Hprint : time_event (V:=V) (Print [text])).
  { simpl. destruct Htext as [-> | ->]; [left | right]; reflexivity. }
  destruct (bool_decide (rank = 0)), (with_MPI options); cbn [app];
    repeat first [apply Forall_nil_2 | apply Forall_cons_2];
    first [exact Hprint | exact I].
Qed.

Lemma time_phase_spec (body : Z -> @M St V bool) (block : Z -> bool -> list (@Event V))
    (options : Options) (rank : Z) (text : string) (s : St) :
  runs_as body block ->
  (forall i b, Forall time_event (block i b)) ->
  text = banner_flow \/ text = banner_adjoint ->
  exists ev s',
    (TimeIter ← query SU2Driver Ev.GetExtIter RInt (GetExtIter W);
     nTimeIter ← query SU2Driver Ev.GetnExtIter RInt (GetnExtIter W);
     banner options rank text;;
     time_loop body nTimeIter TimeIter;;
     mret tt) s = mkRes ev (inr tt) s'
    /\ Forall time_event ev.
Proof.
  intros Hbody Hblock Htext.
  destruct (time_loop_shape body block Hbody (GetnExtIter W s) (GetExtIter W s) s)
    as (k & stopped & Hev & Hval & _).
  unfold mbind, M_bind, query. cbn [value events world].
  rewrite banner_eq. cbn [value events world]. rewrite Hval, Hev.
  cbn [value events world mret M_ret].
  eexists _, _. split; [reflexivity |].
  repeat (apply Forall_cons_2; [exact I |]).
  apply Forall_app. split; [apply time_event_banner; exact Htext |].
  rewrite app_nil_r. apply Forall_iterations. exact Hblock.
Qed.

Lemma direct_phase_spec (options : Options) (rank : Z) (s : St) :
  exists ev s', direct_phase W options rank s = mkRes ev (inr tt) s'
                /\ Forall time_event ev.
Proof.
  apply (time_phase_spec (direct_body W) direct_stage);
    [apply direct_body_runs_as | | left; reflexivity].
  intros i b. repeat first [apply Forall_nil_2 | apply Forall_cons_2; [exact I |]].
Qed.

Lemma adjoint_phase_spec (options : Options) (rank : Z) (s : St) :
  exists ev s', adjoint_phase W options rank s = mkRes ev (inr tt) s'
                /\ Forall time_event ev.
Proof.
  apply (time_phase_spec (adjoint_body W) adjoint_stages);
    [apply adjoint_body_runs_as | | right; reflexivity].
  intros i b. repeat first [apply Forall_nil_2 | apply Forall_cons_2; [exact I |]].
Qed.

Lemma solve_phases_spec (options : Options) (rank : Z) (s : St) :
  exists ev s',
    solve_phases W options rank s
    = mkRes (marker_events W "airfoil" s ++ ev) (inr tt) s'
    /\ Forall time_event ev.
Proof.
  destruct (direct_phase_spec options rank s) as (ev1 & s1 & H1 & Hev1).
  destruct (adjoint_phase_spec options rank s1) as (ev2 & s2 & H2 & Hev2).
  exists (ev1 ++ ev2), s2. split; [| apply Forall_app; split; assumption].
  unfold solve_phases.
  erewrite bind_eq by apply boundary_marker_eq.
  erewrite bind_eq by exact H1.
  rewrite H2. reflexivity.
Qed.

Lemma error_estimation_eq (options : Options) (rank : Z) (s : St) :
  let sx := SetAdaptationData W (ComputeMetric W s) in
  error_estimation zero W options rank s
  = mkRes (error_estimation_events W options rank s)
      (inr (adaptation_data W sx)) (Postprocessing W sx).
Proof.
  intros sx. unfold error_estimation, mbind, M_bind, command, emit.
  rewrite banner_eq. cbn [value events world].
  fold sx. rewrite !extraction_eq. cbn [value events world mret M_ret].
  unfold error_estimation_events. fold sx.
  rewrite app_nil_r. reflexivity.
Qed.

Lemma try_construct_eq {B} (o : Obj) (ctor : St -> Exn + St)
    (handler : string -> @M St V B) (rest : unit -> @M St V B) (s : St) :
  try_except_TypeError (construct o ctor) handler rest s =
  match ctor s with
  | inl e =>
      match e with
      | TypeError exception =>
          mkRes (Construct o (Some e) :: events (handler exception s))
            (value (handler exception s)) (world (handler exception s))
      | _ => mkRes [Construct o (Some e)] (inl e) s
      end
  | inr s' =>
      mkRes (Construct o None :: events (rest tt s')) (value (rest tt s'))
        (world (rest tt s'))
  end.
Proof.
  unfold try_except_TypeError, construct. destruct (ctor s) as [[]|]; reflexivity.
Qed.

(** [main] case by case on what the two constructors do. *)
Lemma main_eq (options : Options) (s : St) :
  main zero W options s =
  match CDiscAdjSinglezoneDriver W (filename options) (nZone options) (nDim options)
          (comm_of options) s with
  | inl e =>
      match e with
      | TypeError exception =>
          mkRes [Construct SU2Driver (Some e); Print [msg_TypeError; exception];
                 Print [mismatch_message options]] (inr None) s
      | _ => mkRes [Construct SU2Driver (Some e)] (inl e) s
      end
  | inr s0 =>
      let r1 := solve_phases W options (rank_of W options) s0 in
      match CErrorEstimationDriver W (nZone options) (nDim options)
              (comm_of options) (world r1) with
      | inl e =>
          match e with
          | TypeError exception =>
              mkRes (Construct SU2Driver None :: events r1
                     ++ [Construct SU2Error (Some e); Print [msg_TypeError; exception];
                         Print [mismatch_message options]])
                (inr None) (world r1)
          | _ => mkRes (Construct SU2Driver None :: events r1
                        ++ [Construct SU2Error (Some e)]) (inl e) (world r1)
          end
      | inr s2 =>
          let sx := SetAdaptationData W (ComputeMetric W s2) in
          mkRes (Construct SU2Driver None :: events r1
                 ++ Construct SU2Error None
                 :: error_estimation_events W options (rank_of W options) s2)
            (inr (Some (adaptation_data W sx))) (Postprocessing W sx)
      end
  end.
Proof.
  unfold main, comm_of, rank_of.
  set (comm := if with_MPI options then COMM_WORLD else comm_0).
  set (rank := if with_MPI options then Get_rank W else 0).
  rewrite try_construct_eq.
  destruct (CDiscAdjSinglezoneDriver W _ _ _ comm s) as [[exception| |cls msg]|s0];
    try reflexivity.
  destruct (solve_phases_spec options rank s0) as (ev & s1 & Hsolve & _).
  erewrite bind_eq by exact Hsolve. rewrite Hsolve. cbn [value events world].
  rewrite try_construct_eq.
  destruct (CErrorEstimationDriver W _ _ comm s1) as [[exception| |cls msg]|s2];
    cbn [value events world]; try reflexivity.
  erewrite bind_eq by apply error_estimation_eq.
  cbn [value events world mret M_ret]. rewrite app_nil_r. reflexivity.
Qed.

(** ** Which events can occur where *)

Lemma existsb_false {A} (p : A -> bool) (l : list A) :
  existsb p l = false <-> Forall (fun x => p x = false) l.
Proof.
  induction l as [|x l IH]; simpl.
  - split; [constructor | reflexivity].
  - rewrite orb_false_iff, IH, Forall_cons. reflexivity.
Qed.

Lemma existsb_false_In {A} (p : A -> bool) (l : list A) (x : A) :
  existsb p l = false -> p x = true -> ~ In x l.
Proof.
  intros Hl Hx Hin. apply existsb_false in Hl.
  rewrite Forall_forall in Hl. apply list_elem_of_In, Hl in Hin. congruence.
Qed.

Lemma time_event_clean (e : @Event V) :
  time_event e ->
  is_late e = false /\ is_diagnostic e = false /\ is_vertex_query e = false
  /\ is_error_point_query e = false.
Proof.
  destruct e as [o x|o m r|args|row| | |sh|i j v|o]; simpl; try contradiction;
    try (intros _; repeat split; reflexivity).
  - destruct o; [| contradiction]. destruct m; try contradiction;
      intros _; repeat split; reflexivity.
  - intros [-> | ->]; repeat split; reflexivity.
Qed.

Lemma marker_events_clean (MarkerName : string) (s : St) :
  Forall (fun e => is_late e = false /\ is_diagnostic e = false
                   /\ is_error_point_query e = false)
    (marker_events W MarkerName s).
Proof.
  unfold marker_events. destruct (lookup_marker _ _ _);
    repeat first [apply Forall_nil_2 | apply Forall_cons_2];
    repeat split; reflexivity.
Qed.

Lemma solve_phases_clean (options : Options) (rank : Z) (s : St) :
  Forall (fun e => is_late e = false /\ is_diagnostic e = false
                   /\ is_error_point_query e = false)
    (events (solve_phases W options rank s)).
Proof.
  destruct (solve_phases_spec options rank s) as (ev & s' & -> & Hev).
  cbn [events]. apply Forall_app. split; [apply marker_events_clean |].
  eapply Forall_impl; [exact Hev |]. intros e He.
  apply time_event_clean in He. tauto.
Qed.

Lemma banner_events_clean (options : Options) (rank : Z) (text : string) :
  is_diagnostic (V:=V) (Print [text]) = false ->
  Forall (fun e : @Event V =>
            is_diagnostic e = false /\ is_vertex_query e = false
            /\ is_error_point_query e = false
            /\ forall m r, e <> Call SU2Error m r)
    (banner_events options rank text).
Proof.
  intros Hd. unfold banner_events.
  destruct (bool_decide (rank = 0)), (with_MPI options); cbn [app];
    repeat first [apply Forall_nil_2 | apply Forall_cons_2];
    repeat split; try reflexivity; try exact Hd; intros; discriminate.
Qed.

Lemma fill_events_clean (s : St) (iPoint len : nat) :
  forall from,
  Forall (fun e => is_diagnostic e = false /\ is_vertex_query e = false
                   /\ is_error_point_query e = false)
    (fill_events W s iPoint from len).
Proof.
  unfold fill_events. induction len as [|len IH]; intros from; cbn [seq flat_map app].
  - constructor.
  - repeat (apply Forall_cons_2; [repeat split; reflexivity |]). apply IH.
Qed.

Lemma rows_events_clean (s : St) (nVar_Par len : nat) :
  forall from,
  Forall (fun e => is_diagnostic e = false /\ is_vertex_query e = false
                   /\ is_error_point_query e = false)
    (rows_events W s nVar_Par from len).
Proof.
  unfold rows_events. induction len as [|len IH]; intros from; cbn [seq flat_map].
  - constructor.
  - rewrite <- app_assoc. apply Forall_app. split; [apply fill_events_clean |].
    apply Forall_cons_2; [repeat split; reflexivity | apply IH].
Qed.

Lemma error_estimation_events_clean (options : Options) (rank : Z) (s : St) :
  Forall (fun e => is_diagnostic e = false /\ is_vertex_query e = false
                   /\ is_error_point_query e = false)
    (error_estimation_events W options rank s).
Proof.
  unfold error_estimation_events, extraction_events. apply Forall_app. split.
  - eapply Forall_impl; [apply banner_events_clean; reflexivity |].
    intros e (Hd & Hv & Hq & _). repeat split; assumption.
  - repeat (apply Forall_cons_2; [repeat split; reflexivity |]).
    apply Forall_app. split; [apply rows_events_clean |].
    repeat first [apply Forall_nil_2 | apply Forall_cons_2; [repeat split; reflexivity |]].
Qed.

Lemma app_split_not_in {A} (l1 l2 pre post : list A) (x : A) :
  l1 ++ l2 = pre ++ x :: post -> ~ In x l1 ->
  exists mid, pre = l1 ++ mid /\ l2 = mid ++ x :: post.
Proof.
  revert pre. induction l1 as [|a l1 IH]; intros pre Heq Hnot.
  - exists pre. split; [reflexivity | exact Heq].
  - destruct pre as [|b pre]; simpl in Heq; injection Heq as -> Heq.
    + destruct Hnot. left. reflexivity.
    + destruct (IH pre Heq) as (mid & -> & ->).
      * intros Hin. apply Hnot. right. exact Hin.
      * exists mid. split; reflexivity.
Qed.

(** Before the error estimation driver makes its first call, nothing in
    the trace is a call on it. *)
Lemma no_error_call_before (options : Options) (rank : Z) (s0 : St) (m : Ev.method)
    (r : @RetVal V) :
  ~ In (Call SU2Error m r)
      ((Construct SU2Driver None :: events (solve_phases W options rank s0))
       ++ Construct SU2Error None :: banner_events options rank banner_error).
Proof.
  intros Hin. apply in_app_or in Hin as [[Hin|Hin]|[Hin|Hin]]; try discriminate.
  - pose proof (solve_phases_clean options rank s0) as Hclean.
    rewrite Forall_forall in Hclean. apply list_elem_of_In, Hclean in Hin.
    destruct Hin as [Hlate _]. discriminate.
  - pose proof (banner_events_clean options rank banner_error eq_refl) as Hclean.
    rewrite Forall_forall in Hclean. apply list_elem_of_In, Hclean in Hin.
    destruct Hin as (_ & _ & _ & Hne). exact (Hne m r eq_refl).
Qed.


Lemma In_clean {A} (P : A -> Prop) (l : list A) (x : A) :
  Forall P l -> In x l -> P x.
Proof. rewrite Forall_forall. intros H Hin. apply H, list_elem_of_In, Hin. Qed.

(** ** Order of the error estimation calls *)

(** C4.  In every run of [main], whatever the loops and the constructors
    did, a call of [GetAdaptationData] is preceded in the trace by the
    call of [ComputeMetric] and, after it, the call of
    [SetAdaptationData]; and a call of [SetAdaptationData] is preceded by
    the call of [ComputeMetric]. *)
Theorem metric_and_sort_before_reads (options : Options) (s : St) :
  let tr := events (main zero W options s) in
  (forall pre post iVar iPoint r,
      tr = pre ++ Call SU2Error (Ev.GetAdaptationData iVar iPoint) r :: post ->
      exists a b c,
        pre = a ++ Call SU2Error Ev.ComputeMetric RNone
                :: b ++ Call SU2Error Ev.SetAdaptationData RNone :: c)
  /\ (forall pre post r,
        tr = pre ++ Call SU2Error Ev.SetAdaptationData r :: post ->
        In (Call SU2Error Ev.ComputeMetric RNone) pre).
Proof.
  intros tr.
  assert (Hcases :
    (forall m r, ~ In (Call SU2Error m r) tr)
    \/ exists head rest,
         tr = head ++ Call SU2Error Ev.ComputeMetric RNone
                :: Call SU2Error Ev.SetAdaptationData RNone :: rest
         /\ forall m r, ~ In (Call SU2Error m r) head).
  { subst tr. rewrite main_eq.
    destruct (CDiscAdjSinglezoneDriver W _ _ _ _ s) as [e|s0].
    { left. intros m r Hin. destruct e; cbn [events] in Hin;
        repeat (destruct Hin as [Hin|Hin]; [discriminate |]); destruct Hin. }
    cbv zeta.
    destruct (CErrorEstimationDriver W _ _ _ _) as [e|s2].
    { left. intros m r Hin.
      assert (Hin' : In (Call SU2Error m r)
                       (events (solve_phases W options (rank_of W options) s0))
                     \/ In (Call (V:=V) SU2Error m r)
                          (Construct SU2Error (Some e)
                           :: match e with
                              | TypeError exception =>
                                  [Print [msg_TypeError; exception];
                                   Print [mismatch_message options]]
                              | _ => []
                              end)).
      { destruct e; cbn [events] in Hin; destruct Hin as [Hin|Hin]; try discriminate;
          apply in_app_or in Hin; exact Hin. }
      destruct Hin' as [Hin'|Hin'].
      - apply (In_clean _ _ _ (solve_phases_clean options _ s0)) in Hin'.
        destruct Hin' as [Hlate _]. discriminate.
      - destruct e; repeat (destruct Hin' as [Hin'|Hin']; [discriminate |]);
          destruct Hin'. }
    right. cbn [events]. unfold error_estimation_events.
    eexists _, _. split.
    - rewrite app_comm_cons, (app_comm_cons _ _ (Construct SU2Error None)), app_assoc.
      reflexivity.
    - intros m r. apply no_error_call_before. }
  split.
  - intros pre post iVar iPoint r Htr.
    destruct Hcases as [Hnone | (head & rest & Hhead & Hnone)].
    + destruct (Hnone (Ev.GetAdaptationData iVar iPoint) r).
      rewrite Htr. apply in_elt.
    + rewrite Hhead in Htr.
      apply app_split_not_in in Htr as (mid & -> & Hmid); [| apply Hnone].
      destruct mid as [|x mid]; [discriminate |]. injection Hmid as <- Hmid.
      destruct mid as [|y mid]; [discriminate |]. injection Hmid as <- Hmid.
      exists head, [], mid. reflexivity.
  - intros pre post r Htr.
    destruct Hcases as [Hnone | (head & rest & Hhead & Hnone)].
    + destruct (Hnone Ev.SetAdaptationData r). rewrite Htr. apply in_elt.
    + rewrite Hhead in Htr.
      apply app_split_not_in in Htr as (mid & -> & Hmid); [| apply Hnone].
      destruct mid as [|x mid]; [discriminate |]. injection Hmid as <- Hmid.
      apply in_or_app. right. left. reflexivity.
Qed.

(** ** Failing constructors *)

Lemma main_direct_failure (options : Options) (s : St) (e : Exn) :
  CDiscAdjSinglezoneDriver W (filename options) (nZone options) (nDim options)
    (comm_of options) s = inl e ->
  main zero W options s
  = mkRes (Construct SU2Driver (Some e) :: handler_events options e)
      (failure_outcome e) s.
Proof. intros He. rewrite main_eq, He. destruct e; reflexivity. Qed.

Lemma main_error_failure (options : Options) (s s0 : St) (e : Exn) :
  CDiscAdjSinglezoneDriver W (filename options) (nZone options) (nDim options)
    (comm_of options) s = inr s0 ->
  CErrorEstimationDriver W (nZone options) (nDim options) (comm_of options)
    (world (solve_phases W options (rank_of W options) s0)) = inl e ->
  main zero W options s
  = mkRes ((Construct SU2Driver None
            :: events (solve_phases W options (rank_of W options) s0))
           ++ Construct SU2Error (Some e) :: handler_events options e)
      (failure_outcome e) (world (solve_phases W options (rank_of W options) s0)).
Proof.
  intros Hs0 He. rewrite main_eq, Hs0. cbv zeta. rewrite He. destruct e; reflexivity.
Qed.

Lemma handler_events_not_late (options : Options) (e : Exn) :
  existsb is_late (Construct (V:=V) SU2Error (Some e) :: handler_events options e) = false.
Proof.
  destruct e; cbn [handler_events existsb is_late orb]; try reflexivity.
  unfold mismatch_message. destruct (with_MPI options); reflexivity.
Qed.

Lemma before_error_driver_clean (options : Options) (s0 : St) :
  Forall (fun e => is_late e = false /\ is_diagnostic e = false
                   /\ is_error_point_query e = false)
    (Construct SU2Driver None :: events (solve_phases W options (rank_of W options) s0)).
Proof.
  apply Forall_cons_2; [repeat split; reflexivity | apply solve_phases_clean].
Qed.

(** C7, as the code has it.  When a constructor raises [TypeError], the
    trace ends with the failed construction followed by the two lines of
    the handler, the second being the mismatch text selected by the
    parallel flag, and [main] returns; when it raises anything else the
    trace ends with the failed construction and the exception leaves
    [main].  For the first constructor nothing else is in the trace; for
    the second, what precedes is the trace of the solve phases, and no
    event of the error estimation or of the teardown occurs.  The two
    mismatch texts differ. *)
Theorem construction_failure_aborts (options : Options) (s : St) :
  let r := main zero W options s in
  (forall e,
      CDiscAdjSinglezoneDriver W (filename options) (nZone options) (nDim options)
        (comm_of options) s = inl e ->
      events r = Construct SU2Driver (Some e) :: handler_events options e
      /\ value r = failure_outcome e)
  /\ (forall s0 e,
        CDiscAdjSinglezoneDriver W (filename options) (nZone options) (nDim options)
          (comm_of options) s = inr s0 ->
        CErrorEstimationDriver W (nZone options) (nDim options) (comm_of options)
          (world (solve_phases W options (rank_of W options) s0)) = inl e ->
        events r = (Construct SU2Driver None
                    :: events (solve_phases W options (rank_of W options) s0))
                   ++ Construct SU2Error (Some e) :: handler_events options e
        /\ value r = failure_outcome e
        /\ existsb is_late (events r) = false)
  /\ mismatch_message options
     = (if with_MPI options then msg_serial_build else msg_parallel_build)
  /\ msg_serial_build <> msg_parallel_build.
Proof.
  intros r. subst r. split; [| split; [| split; [reflexivity | discriminate]]].
  - intros e He. rewrite (main_direct_failure _ _ _ He). split; reflexivity.
  - intros s0 e Hs0 He. rewrite (main_error_failure _ _ _ _ Hs0 He).
    cbn [events value]. split; [reflexivity | split; [reflexivity |]].
    rewrite existsb_app, handler_events_not_late, orb_false_r.
    apply existsb_false.
    eapply Forall_impl; [apply before_error_driver_clean |].
    intros ev (Hlate & _). exact Hlate.
Qed.

(** C10.  At both construction points a [TypeError] is turned into the
    two printed lines and a normal return, while any other exception
    leaves [main] uncaught with the failed construction as the last event
    and without any line of the handler in the trace. *)
Theorem only_TypeError_is_caught (options : Options) (s : St) (e : Exn) :
  CDiscAdjSinglezoneDriver W (filename options) (nZone options) (nDim options)
    (comm_of options) s = inl e
  \/ (exists s0,
        CDiscAdjSinglezoneDriver W (filename options) (nZone options) (nDim options)
          (comm_of options) s = inr s0
        /\ CErrorEstimationDriver W (nZone options) (nDim options) (comm_of options)
             (world (solve_phases W options (rank_of W options) s0)) = inl e) ->
  let r := main zero W options s in
  match e with
  | TypeError exception =>
      value r = inr None
      /\ exists pre o,
          events r = pre ++ [Construct o (Some e); Print [msg_TypeError; exception];
                             Print [mismatch_message options]]
  | _ =>
      value r = inl e
      /\ existsb is_diagnostic (events r) = false
      /\ exists pre o, events r = pre ++ [Construct o (Some e)]
  end.
Proof.
  intros [He | (s0 & Hs0 & He)] r; subst r.
  - rewrite (main_direct_failure _ _ _ He).
    destruct e; cbn [events value handler_events failure_outcome];
      repeat split; try reflexivity; exists [], SU2Driver; reflexivity.
  - rewrite (main_error_failure _ _ _ _ Hs0 He).
    assert (Hclean : existsb is_diagnostic
                       (Construct SU2Driver None
                        :: events (solve_phases W options (rank_of W options) s0)) = false).
    { apply existsb_false. eapply Forall_impl; [apply before_error_driver_clean |].
      intros ev (_ & Hd & _). exact Hd. }
    destruct e; cbn [events value handler_events failure_outcome];
      repeat split; try reflexivity;
      try (rewrite existsb_app, Hclean; reflexivity);
      eexists _, SU2Error; reflexivity.
Qed.

(** ** Where the counts come from *)

Lemma main_events_clean (options : Options) (s : St) :
  Forall (fun e => is_error_point_query e = false)
    (events (main zero W options s)).
Proof.
  rewrite main_eq.
  destruct (CDiscAdjSinglezoneDriver W _ _ _ _ s) as [e|s0].
  { destruct e; cbn [events];
      repeat first [apply Forall_nil_2 | apply Forall_cons_2; [reflexivity |]]. }
  cbv zeta.
  assert (Hbefore : Forall (fun e => is_error_point_query e = false)
            (Construct SU2Driver None
             :: events (solve_phases W options (rank_of W options) s0))).
  { eapply Forall_impl; [apply before_error_driver_clean |].
    intros ev (_ & _ & Hq). exact Hq. }
  destruct (CErrorEstimationDriver W _ _ _ _) as [e|s2].
  - destruct e; cbn [events]; rewrite app_comm_cons; apply Forall_app;
      (split; [exact Hbefore |]);
      repeat first [apply Forall_nil_2 | apply Forall_cons_2; [reflexivity |]].
  - cbn [events]. rewrite app_comm_cons. apply Forall_app. split; [exact Hbefore |].
    apply Forall_cons_2; [reflexivity |].
    eapply Forall_impl; [apply error_estimation_events_clean |].
    intros ev (_ & _ & Hq). exact Hq.
Qed.

(** C8, as the code has it.  The extraction asks the direct driver
    [SU2Driver] for the point count, with the three indices zero, then the
    error estimation driver for the variable count, and allocates the
    array with the two numbers returned; no run of [main] asks the error
    estimation driver for a point count. *)
Theorem point_count_from_direct_driver (options : Options) (s : St) :
  (forall sx,
      let nPoint_Local := GetnPointDomain W sx 0 0 0 in
      let nVar_Par := GetnVarPar W sx in
      exists tail Sol,
        events (extraction zero W sx)
        = Call SU2Driver (Ev.GetnPointDomain 0 0 0) (RCount nPoint_Local)
          :: Call SU2Error Ev.GetnVarPar (RCount nVar_Par)
          :: Alloc (nPoint_Local, nVar_Par) :: tail
        /\ value (extraction zero W sx) = inr Sol
        /\ shape Sol = (nPoint_Local, nVar_Par))
  /\ existsb is_error_point_query (events (main zero W options s)) = false.
Proof.
  split.
  - intros sx nPoint_Local nVar_Par. rewrite extraction_eq.
    eexists _, _. repeat split.
  - apply existsb_false, main_events_clean.
Qed.

(** ** Vertex queries in the whole run *)

Lemma main_vertex_queries (options : Options) (s : St) (e : @Event V) :
  In e (events (main zero W options s)) -> is_vertex_query e = true ->
  exists s0 id,
    CDiscAdjSinglezoneDriver W (filename options) (nZone options) (nDim options)
      (comm_of options) s = inr s0
    /\ lookup_marker "airfoil" (GetAllBoundaryMarkersTag W s0)
         (GetAllBoundaryMarkers W s0) = Some id
    /\ (e = Call SU2Driver (Ev.GetNumberVertices id) (RCount (GetNumberVertices W s0 id))
        \/ e = Call SU2Driver (Ev.GetNumberHaloVertices id)
                 (RCount (GetNumberHaloVertices W s0 id))).
Proof.
  rewrite main_eq. intros Hin Hq.
  destruct (CDiscAdjSinglezoneDriver W _ _ _ _ s) as [x|s0].
  { destruct x; cbn [events] in Hin;
      repeat (destruct Hin as [<-|Hin]; [discriminate |]); destruct Hin. }
  cbv zeta in Hin.
  destruct (solve_phases_spec options (rank_of W options) s0) as (ev & s1 & Hsolve & Hev).
  rewrite Hsolve in Hin. cbn [events world] in Hin.
  assert (Hcases : In e (marker_events W "airfoil" s0)
                   \/ is_vertex_query e = false).
  { destruct (CErrorEstimationDriver W _ _ _ _) as [x|s2].
    - assert (Hin' : In e ((Construct SU2Driver None :: marker_events W "airfoil" s0 ++ ev)
                           ++ Construct SU2Error (Some x) :: handler_events options x))
        by (destruct x; exact Hin).
      apply in_app_or in Hin' as [[<-|Hin']|[<-|Hin']]; try (right; reflexivity).
      + apply in_app_or in Hin' as [Hin'|Hin']; [left; exact Hin' | right].
        apply (In_clean _ _ _ Hev), time_event_clean in Hin'. tauto.
      + right. destruct x; repeat (destruct Hin' as [<-|Hin']; [reflexivity |]);
          destruct Hin'.
    - cbn [events] in Hin. destruct Hin as [<-|Hin]; [right; reflexivity |].
      apply in_app_or in Hin as [Hin|[<-|Hin]]; try (right; reflexivity).
      + apply in_app_or in Hin as [Hin|Hin]; [left; exact Hin | right].
        apply (In_clean _ _ _ Hev), time_event_clean in Hin. tauto.
      + right. apply (In_clean _ _ _ (error_estimation_events_clean _ _ _)) in Hin.
        tauto. }
  destruct Hcases as [Hm|Hf]; [| congruence].
  exists s0. unfold marker_events in Hm.
  destruct (lookup_marker _ _ _) as [id|].
  - exists id. split; [reflexivity | split; [reflexivity |]].
    repeat (destruct Hm as [<-|Hm]; [try discriminate; auto |]). destruct Hm.
  - repeat (destruct Hm as [<-|Hm]; [discriminate |]). destruct Hm.
Qed.

(** C9.  Inside the marker lookup, a vertex-count query is made only
    when the marker was resolved, and then on that marker; when it was not,
    the lookup consists of the two listing calls alone and the three counts
    are zero.  In a whole run of [main], every vertex-count query in the
    trace is one of the two made by the lookup for the resolved marker
    ["airfoil"]. *)
Theorem vertex_queries_only_when_resolved (options : Options) (s : St) :
  (forall MarkerName sb,
      let r := boundary_marker W MarkerName sb in
      exists info,
        value r = inr info
        /\ (forall o id c,
              In (Call o (Ev.GetNumberVertices id) c) (events r)
              \/ In (Call o (Ev.GetNumberHaloVertices id) c) (events r) ->
              MarkerID info = Some id)
        /\ (MarkerID info = None ->
              events r =
                [Call SU2Driver Ev.GetAllBoundaryMarkersTag
                   (RTags (GetAllBoundaryMarkersTag W sb));
                 Call SU2Driver Ev.GetAllBoundaryMarkers
                   (RMarkers (GetAllBoundaryMarkers W sb))]
              /\ existsb is_vertex_query (events r) = false
              /\ nVertex_Marker info = 0
              /\ nVertex_Marker_HALO info = 0
              /\ nVertex_Marker_PHYS info = 0))
  /\ (forall e,
        In e (events (main zero W options s)) -> is_vertex_query e = true ->
        exists s0 id,
          CDiscAdjSinglezoneDriver W (filename options) (nZone options) (nDim options)
            (comm_of options) s = inr s0
          /\ lookup_marker "airfoil" (GetAllBoundaryMarkersTag W s0)
               (GetAllBoundaryMarkers W s0) = Some id
          /\ (e = Call SU2Driver (Ev.GetNumberVertices id)
                    (RCount (GetNumberVertices W s0 id))
              \/ e = Call SU2Driver (Ev.GetNumberHaloVertices id)
                       (RCount (GetNumberHaloVertices W s0 id)))).
Proof.
  split.
  - intros MarkerName sb. apply boundary_marker_vertex_queries.
  - apply main_vertex_queries.
Qed.

(** ** Content of the adaptation data *)

Lemma stores_app (tr1 tr2 : list (@Event V)) :
  stores (tr1 ++ tr2) = stores tr1 ++ stores tr2.
Proof. unfold stores. apply flat_map_app. Qed.

Lemma stores_fill_events (s : St) (iPoint len : nat) :
  forall from,
  stores (fill_events W s iPoint from len)
  = map (fun iVar => (iPoint, iVar, GetAdaptationData W s iVar iPoint)) (seq from len).
Proof.
  induction len as [|len IH]; intros from; [reflexivity |].
  unfold fill_events in *. cbn [seq flat_map map]. rewrite stores_app, IH. reflexivity.
Qed.

Lemma stores_rows_events (s : St) (nVar_Par len : nat) :
  forall from,
  stores (rows_events W s nVar_Par from len)
  = flat_map (fun iPoint =>
        map (fun iVar => (iPoint, iVar, GetAdaptationData W s iVar iPoint))
          (seq 0 nVar_Par))
      (seq from len).
Proof.
  induction len as [|len IH]; intros from; [reflexivity |].
  unfold rows_events in *. cbn [seq flat_map].
  rewrite !stores_app, stores_fill_events, IH. cbn [stores flat_map app].
  rewrite app_nil_r. reflexivity.
Qed.

Lemma getitem_adaptation_data (s : St) (iPoint iVar : nat) :
  (iPoint < GetnPointDomain W s 0 0 0)%nat -> (iVar < GetnVarPar W s)%nat ->
  getitem (adaptation_data W s) iPoint iVar = Some (GetAdaptationData W s iVar iPoint).
Proof.
  intros Hi Hj. unfold getitem, adaptation_data. cbn [shape rows fst snd].
  rewrite bool_decide_eq_true_2 by (split; assumption).
  rewrite list_lookup_fmap, lookup_seq_lt by assumption. cbn.
  unfold adaptation_row. rewrite list_lookup_fmap, lookup_seq_lt by assumption.
  reflexivity.
Qed.

Lemma extraction_correct (s : St) :
  let nPoint_Local := GetnPointDomain W s 0 0 0 in
  let nVar_Par := GetnVarPar W s in
  exists Sol,
    value (extraction zero W s) = inr Sol
    /\ shape Sol = (nPoint_Local, nVar_Par)
    /\ length (rows Sol) = nPoint_Local
    /\ (forall row, In row (rows Sol) -> length row = nVar_Par)
    /\ (forall iPoint iVar,
          (iPoint < nPoint_Local)%nat -> (iVar < nVar_Par)%nat ->
          getitem Sol iPoint iVar = Some (GetAdaptationData W s iVar iPoint))
    /\ stores (events (extraction zero W s))
       = flat_map (fun iPoint =>
             map (fun iVar => (iPoint, iVar, GetAdaptationData W s iVar iPoint))
               (seq 0 nVar_Par))
           (seq 0 nPoint_Local).
Proof.
  intros nPoint_Local nVar_Par. rewrite extraction_eq. cbn [value events].
  exists (adaptation_data W s). split; [reflexivity |]. split; [reflexivity |].
  split; [| split; [| split]].
  - unfold adaptation_data. cbn [rows]. rewrite length_fmap, length_seq. reflexivity.
  - intros row Hrow. unfold adaptation_data in Hrow. cbn [rows] in Hrow.
    apply list_elem_of_In, list_elem_of_fmap in Hrow as (iPoint & -> & _).
    unfold adaptation_row. rewrite length_fmap, length_seq. reflexivity.
  - apply getitem_adaptation_data.
  - unfold extraction_events. cbn [stores flat_map app].
    apply stores_rows_events.
Qed.

End Facts.

(** ** The claims on concrete runs *)

(** C1.  Whatever the state in which the extraction runs, it completes
    with an array whose shape is the pair of the point count and the
    variable count reported at that time, with as many rows as points and
    as many entries per row as variables, whose cell [(iPoint, iVar)] is
    the value the driver gives for variable [iVar] at point [iPoint], and
    the assignments made are exactly one per cell, row after row.  With
    three points, two variables and the values [[1,2],[3,4],[5,6]], the
    extraction, and [main] as a whole, yield that 3x2 array, not its
    transpose. *)
Theorem adaptation_data_filled_row_major :
  (forall (St V : Type) (zero : V) (W : @Wrapper St V) (s : St),
      let nPoint_Local := GetnPointDomain W s 0 0 0 in
      let nVar_Par := GetnVarPar W s in
      exists Sol,
        value (extraction zero W s) = inr Sol
        /\ shape Sol = (nPoint_Local, nVar_Par)
        /\ length (rows Sol) = nPoint_Local
        /\ (forall row, In row (rows Sol) -> length row = nVar_Par)
        /\ (forall iPoint iVar,
              (iPoint < nPoint_Local)%nat -> (iVar < nVar_Par)%nat ->
              getitem Sol iPoint iVar = Some (GetAdaptationData W s iVar iPoint))
        /\ stores (events (extraction zero W s))
           = flat_map (fun iPoint =>
                 map (fun iVar => (iPoint, iVar, GetAdaptationData W s iVar iPoint))
                   (seq 0 nVar_Par))
               (seq 0 nPoint_Local))
  /\ value (extraction 0 scenario_D 0%nat)
     = inr (mkArray (3%nat, 2%nat) [[1; 2]; [3; 4]; [5; 6]])
  /\ stores (events (extraction 0 scenario_D 0%nat))
     = [(0%nat, 0%nat, 1); (0%nat, 1%nat, 2); (1%nat, 0%nat, 3);
        (1%nat, 1%nat, 4); (2%nat, 0%nat, 5); (2%nat, 1%nat, 6)]
  /\ value (main 0 scenario_D serial_options 0%nat)
     = inr (Some (mkArray (3%nat, 2%nat) [[1; 2]; [3; 4]; [5; 6]])).
Proof.
  split; [intros St V zero W s; apply extraction_correct |].
  repeat split; vm_compute; reflexivity.
Qed.

(** C1 on scenario D: the cell for point 1 and variable 0 holds 3, the
    value the driver gives for variable 0 at point 1. *)
Lemma adaptation_data_filled_row_major_witness :
  exists Sol,
    value (extraction 0 scenario_D 0%nat) = inr Sol
    /\ getitem Sol 1 0 = Some 3.
Proof.
  destruct (proj1 adaptation_data_filled_row_major nat Z 0 scenario_D 0%nat)
    as (Sol & Hvalue & _ & _ & _ & Hcell & _).
  exists Sol. split; [exact Hvalue |].
  apply (Hcell 1%nat 0%nat); cbn; lia.
Defined.

(** C8 on scenario D: the extraction opens with the point count asked of
    [SU2Driver], the variable count asked of [SU2Error], and the
    allocation of a 3x2 array. *)
Lemma point_count_from_direct_driver_witness :
  exists tail Sol,
    events (extraction 0 scenario_D 0%nat)
    = Call SU2Driver (Ev.GetnPointDomain 0 0 0) (RCount 3)
      :: Call SU2Error Ev.GetnVarPar (RCount 2) :: Alloc (3%nat, 2%nat) :: tail
    /\ value (extraction 0 scenario_D 0%nat) = inr Sol
    /\ shape Sol = (3%nat, 2%nat).
Proof.
  exact (proj1 (point_count_from_direct_driver 0 scenario_D serial_options 0%nat) 0%nat).
Defined.

(** C2 on the run of scenario D from counter 0 to 4: the trace opens with
    the complete pass for counter 0, [Monitor] signals the stop at counter
    2, and the trace ends with the complete pass for 2. *)
Lemma adjoint_stage_order_witness :
  In (Call SU2Driver (Ev.Monitor 2) (RBool true))
     (events (adjoint_loop scenario_D 4 0 0%nat))
  /\ (exists pre, events (adjoint_loop scenario_D 4 0 0%nat) = pre ++ adjoint_stages 2 true)
  /\ (exists rest, events (adjoint_loop scenario_D 4 0 0%nat) = adjoint_stages 0 false ++ rest).
Proof.
  assert (Hin : In (Call (V:=Z) SU2Driver (Ev.Monitor 2) (RBool true))
                  (events (adjoint_loop scenario_D 4 0 0%nat))).
  { vm_compute. do 16 right. left. reflexivity. }
  split; [exact Hin |]. split.
  - exact (proj1 (proj2 (adjoint_stage_order scenario_D 4 0 0%nat)) 2 Hin).
  - refine (proj2 (proj2 (adjoint_stage_order scenario_D 4 0 0%nat)) _). lia.
Defined.

(** C3 on scenario D: the direct loop from 0 to 4 stops at counter 1
    after two steps, fewer than four; started at counter 1, where the
    signal is raised at once, it takes exactly one step. *)
Lemma time_loops_bounded_witness :
  Z.of_nat (direct_steps (events (direct_loop scenario_D 4 0 0%nat))) < 4 - 0
  /\ direct_steps (events (direct_loop scenario_D 4 1 0%nat)) = 1%nat.
Proof.
  split.
  - destruct (time_loops_bounded scenario_D 4 0 0%nat) as (_ & _ & Hstop & _).
    refine (proj2 (Hstop 1 _) _).
    + vm_compute. right. left. reflexivity.
    + lia.
  - destruct (time_loops_bounded scenario_D 4 1 0%nat) as (_ & _ & _ & _ & Hfirst).
    refine (proj1 (proj2 (Hfirst _ _))).
    + lia.
    + reflexivity.
Defined.

(** C4 on scenario D: what precedes the read of variable 0 at point 1
    contains [ComputeMetric] and then [SetAdaptationData]. *)
Lemma metric_and_sort_before_reads_witness :
  exists a b c,
    firstn 46 (events (main 0 scenario_D serial_options 0%nat))
    = a ++ Call SU2Error Ev.ComputeMetric RNone
        :: b ++ Call SU2Error Ev.SetAdaptationData RNone :: c.
Proof.
  refine (proj1 (metric_and_sort_before_reads 0 scenario_D serial_options 0%nat)
            _ (skipn 47 (events (main 0 scenario_D serial_options 0%nat)))
            0%nat 1%nat (RFloat 3) _).
  vm_compute. reflexivity.
Defined.

(** C5 on scenario C: the tag exists, this rank has no marker for it, and
    the lookup returns the absent marker with zero counts. *)
Lemma marker_usable_iff_in_both_witness :
  value (boundary_marker scenario_C "airfoil" 0%nat) = inr (mkMarkerInfo None 0 0 0).
Proof.
  destruct (marker_usable_iff_in_both scenario_C "airfoil" 0%nat)
    as (info & Hvalue & _ & Habsent).
  rewrite Hvalue. f_equal. apply Habsent. right.
  apply not_elem_of_dom. reflexivity.
Defined.

(** C6 on scenario D: five vertices, two of them halo, three physical. *)
Lemma marker_counts_unchecked_witness :
  exists info,
    value (boundary_marker scenario_D "airfoil" 0%nat) = inr info
    /\ nVertex_Marker info = nVertex_Marker_PHYS info + nVertex_Marker_HALO info
    /\ 0 <= nVertex_Marker_PHYS info.
Proof.
  destruct (marker_counts_unchecked scenario_D "airfoil" 0%nat) as (info & Hvalue & Hid).
  exists info. split; [exact Hvalue |].
  assert (Hres : MarkerID info = Some 0).
  { rewrite boundary_marker_eq in Hvalue. injection Hvalue as <-. reflexivity. }
  destruct (Hid 0 Hres) as (_ & _ & Hsum & Hphys).
  split; [exact Hsum |]. apply Hphys. cbn. lia.
Defined.

(** C7 on constructors raising [TypeError]: in a serial run the direct
    constructor's failure leaves the three events and a normal return; in
    a parallel run the failure of the second constructor comes after the
    solve phases and nothing of the error estimation follows. *)
Lemma construction_failure_aborts_witness :
  events (main 0 direct_TypeError serial_options 0%nat)
  = [Construct SU2Driver (Some (TypeError "in method 'new_CDiscAdjSinglezoneDriver'"));
     Print [msg_TypeError; "in method 'new_CDiscAdjSinglezoneDriver'"];
     Print [msg_parallel_build]]
  /\ value (main 0 error_TypeError parallel_options 0%nat) = inr None
  /\ existsb is_late (events (main 0 error_TypeError parallel_options 0%nat)) = false.
Proof.
  split.
  - exact (proj1 (proj1 (construction_failure_aborts 0 direct_TypeError serial_options 0%nat)
                    (TypeError "in method 'new_CDiscAdjSinglezoneDriver'") eq_refl)).
  - exact (proj2 (proj1 (proj2 (construction_failure_aborts 0 error_TypeError
                                  parallel_options 0%nat))
                    0%nat (TypeError "in method 'new_CErrorEstimationDriver'")
                    eq_refl eq_refl)).
Defined.

(** C10 on a constructor raising [RuntimeError]: the exception leaves
    [main] and no line of the handler is printed. *)
Lemma only_TypeError_is_caught_witness :
  value (main 0 direct_RuntimeError serial_options 0%nat)
  = inl (OtherError "RuntimeError" "config file not found")
  /\ existsb is_diagnostic (events (main 0 direct_RuntimeError serial_options 0%nat)) = false.
Proof.
  destruct (only_TypeError_is_caught 0 direct_RuntimeError serial_options 0%nat
              (OtherError "RuntimeError" "config file not found")
              (or_introl eq_refl)) as (Hvalue & Hquiet & _).
  split; [exact Hvalue | exact Hquiet].
Defined.

(** C9 on scenario D: the first vertex-count query of the run is the one
    on the resolved marker. *)
Lemma vertex_queries_only_when_resolved_witness :
  exists s0 id,
    CDiscAdjSinglezoneDriver scenario_D (filename serial_options) (nZone serial_options)
      (nDim serial_options) (comm_of serial_options) 0%nat = inr s0
    /\ lookup_marker "airfoil" (GetAllBoundaryMarkersTag scenario_D s0)
         (GetAllBoundaryMarkers scenario_D s0) = Some id.
Proof.
  destruct (proj2 (vertex_queries_only_when_resolved 0 scenario_D serial_options 0%nat)
              (Call SU2Driver (Ev.GetNumberVertices 0) (RCount 5)))
    as (s0 & id & Hs0 & Hid & _).
  - vm_compute. do 3 right. left. reflexivity.
  - reflexivity.
  - exists s0, id. split; assumption.
Defined.

(** ** Where the script departs from the statements above *)

(** C6 as stated fails: with one vertex and two halo vertices reported,
    the lookup returns a physical count of -1 without any exception, and
    [main] runs to its end. *)
Lemma physical_count_checked_counterexample :
  value (boundary_marker halo_exceeds_total "airfoil" 0%nat)
  = inr (mkMarkerInfo (Some 0) 1 2 (-1))
  /\ ~ physical_count_checked halo_exceeds_total "airfoil" 0%nat
  /\ exists Sol, value (main 0 halo_exceeds_total serial_options 0%nat) = inr (Some Sol).
Proof.
  split; [reflexivity |]. split.
  - unfold physical_count_checked. rewrite boundary_marker_eq.
    intros H. destruct H as [_ Hphys]; [discriminate |].
    apply Hphys. reflexivity.
  - eexists. vm_compute. reflexivity.
Qed.

(** C7 as stated fails: when the direct constructor raises an exception
    other than [TypeError], no mismatch text is printed. *)
Lemma failure_always_diagnosed_counterexample :
  ~ failure_always_diagnosed 0 direct_RuntimeError serial_options 0%nat.
Proof.
  intros H.
  destruct (H SU2Driver (OtherError "RuntimeError" "config file not found")) as [Hin _].
  - left. reflexivity.
  - destruct Hin as [Hin|[]]. discriminate.
Qed.

(** C8 as stated fails: in the run of scenario D the array is allocated
    with the point count returned by [SU2Driver], and the error estimation
    driver is never asked for one. *)
Lemma point_count_from_error_driver_counterexample :
  In (Call SU2Driver (Ev.GetnPointDomain 0 0 0) (RCount 3))
     (events (main 0 scenario_D serial_options 0%nat))
  /\ In (Alloc (V:=Z) (3%nat, 2%nat)) (events (main 0 scenario_D serial_options 0%nat))
  /\ ~ point_count_from_error_driver (events (main 0 scenario_D serial_options 0%nat)).
Proof.
  split; [vm_compute; do 38 right; left; reflexivity |].
  split; [vm_compute; do 40 right; left; reflexivity |].
  intros (n & m & Hin & _).
  revert Hin. apply (existsb_false_In is_error_point_query); reflexivity.
Qed.

(** * Further properties of the script *)

Section Loops.

Context {St V : Type} (W : @Wrapper St V).

(** X1.  The direct loop calls [DirectIteration] on the consecutive
    counters [TimeIter], [TimeIter + 1], ...; every call but possibly the
    last returns no stop signal; it ends either on a stop signal raised
    for a counter below [nTimeIter], leaving [TimeIter] at that counter,
    or after [max 0 (nTimeIter - TimeIter)] calls. *)
Theorem direct_loop_trace (nTimeIter TimeIter : Z) (s : St) :
  exists (k : nat) (stopped : bool),
    events (direct_loop W nTimeIter TimeIter s) = iterations direct_stage TimeIter k stopped
    /\ value (direct_loop W nTimeIter TimeIter s) = inr (TimeIter + Z.of_nat k)
    /\ (if stopped then TimeIter + Z.of_nat k < nTimeIter
        else Z.of_nat k = Z.max 0 (nTimeIter - TimeIter)).
Proof.
  apply (time_loop_shape _ _ (direct_body_runs_as W)).
Qed.

Lemma returned_stop_iterations (block : Z -> bool -> list (@Event V)) TimeIter k :
  (forall i, existsb returned_stop (block i true) = true) ->
  existsb returned_stop (iterations block TimeIter k true) = true.
Proof.
  intros Hblock. unfold iterations. rewrite existsb_app, Hblock. apply orb_true_r.
Qed.

Lemma loop_without_stop (body : Z -> @M St V bool) (block : Z -> bool -> list (@Event V))
    (p : @Event V -> bool) (nTimeIter TimeIter : Z) (s : St) :
  runs_as body block ->
  (forall i b, count p (block i b) = 1%nat) ->
  (forall i, existsb returned_stop (block i true) = true) ->
  existsb returned_stop (events (time_loop body nTimeIter TimeIter s)) = false ->
  Z.of_nat (count p (events (time_loop body nTimeIter TimeIter s)))
  = Z.max 0 (nTimeIter - TimeIter)
  /\ value (time_loop body nTimeIter TimeIter s) = inr (Z.max TimeIter nTimeIter).
Proof.
  intros Hbody Hone Hstop Hquiet.
  destruct (time_loop_shape body block Hbody nTimeIter TimeIter s)
    as (k & stopped & Hev & Hval & Hk).
  rewrite Hev in Hquiet |- *. rewrite Hval, (count_iterations p block Hone).
  destruct stopped.
  - rewrite (returned_stop_iterations block TimeIter k Hstop) in Hquiet. discriminate.
  - split; [lia | f_equal; lia].
Qed.

(** X2.  A loop in which no call returns the stop signal runs to the
    iteration limit: it takes exactly [max 0 (nTimeIter - TimeIter)] steps
    and leaves [TimeIter] at [max TimeIter nTimeIter]. *)
Theorem loops_exhaust_without_stop (nTimeIter TimeIter : Z) (s : St) :
  (existsb returned_stop (events (direct_loop W nTimeIter TimeIter s)) = false ->
   Z.of_nat (direct_steps (events (direct_loop W nTimeIter TimeIter s)))
   = Z.max 0 (nTimeIter - TimeIter)
   /\ value (direct_loop W nTimeIter TimeIter s) = inr (Z.max TimeIter nTimeIter))
  /\ (existsb returned_stop (events (adjoint_loop W nTimeIter TimeIter s)) = false ->
      Z.of_nat (adjoint_steps (events (adjoint_loop W nTimeIter TimeIter s)))
      = Z.max 0 (nTimeIter - TimeIter)
      /\ value (adjoint_loop W nTimeIter TimeIter s) = inr (Z.max TimeIter nTimeIter)).
Proof.
  split; intros Hquiet.
  - apply (loop_without_stop (direct_body W) direct_stage);
      [apply direct_body_runs_as | reflexivity | reflexivity | exact Hquiet].
  - apply (loop_without_stop (adjoint_body W) adjoint_stages);
      [apply adjoint_body_runs_as | reflexivity | reflexivity | exact Hquiet].
Qed.

End Loops.

(** X2 on scenario C, whose driver never signals a stop: four steps from
    counter 0 to 4, and the counter ends at 4. *)
Lemma loops_exhaust_without_stop_witness :
  Z.of_nat (direct_steps (events (direct_loop scenario_C 4 0 0%nat))) = 4
  /\ value (adjoint_loop scenario_C 4 0 0%nat) = inr 4.
Proof.
  split.
  - exact (proj1 (proj1 (loops_exhaust_without_stop scenario_C 4 0 0%nat) eq_refl)).
  - exact (proj2 (proj2 (loops_exhaust_without_stop scenario_C 4 0 0%nat) eq_refl)).
Defined.

Section Arrays.

Context {St V : Type} (zero : V) (W : @Wrapper St V).

Lemma np_zeros_well_formed (sh : nat * nat) : well_formed (np_zeros zero sh).
Proof.
  unfold well_formed, np_zeros. cbn [rows shape]. split.
  - apply length_replicate.
  - apply Forall_replicate, length_replicate.
Qed.

Lemma getitem_np_zeros (sh : nat * nat) (i j : nat) :
  getitem (np_zeros zero sh) i j
  = if bool_decide (i < sh.1 /\ j < sh.2)%nat then Some zero else None.
Proof.
  unfold getitem, np_zeros. cbn [rows shape].
  destruct (bool_decide (i < sh.1 /\ j < sh.2)%nat) eqn:Hin; [| reflexivity].
  apply bool_decide_eq_true in Hin as [Hi Hj].
  rewrite lookup_replicate_2 by exact Hi. cbn.
  apply lookup_replicate_2. exact Hj.
Qed.

(** X3.  On an array whose rows agree with its shape, a store inside the
    shape succeeds, keeps the shape and the agreement, is read back by the
    same subscript and leaves every other cell as it was; a store outside
    the shape is refused (numpy's [IndexError]).  The array of
    [np.zeros] is such an array and reads [0.0] in every cell. *)
Theorem setitem_getitem (a : @ndarray V) (i j : nat) (v : V) :
  well_formed a ->
  ((i < (shape a).1 /\ j < (shape a).2)%nat ->
   exists a',
     setitem a i j v = Some a'
     /\ shape a' = shape a
     /\ well_formed a'
     /\ getitem a' i j = Some v
     /\ forall i' j', (i', j') <> (i, j) -> getitem a' i' j' = getitem a i' j')
  /\ (~ (i < (shape a).1 /\ j < (shape a).2)%nat -> setitem a i j v = None)
  /\ (forall sh, well_formed (np_zeros zero sh)
                 /\ forall i' j', (i' < sh.1)%nat -> (j' < sh.2)%nat ->
                                  getitem (np_zeros zero sh) i' j' = Some zero).
Proof.
  intros [Hrows Hcols]. split; [| split].
  - intros [Hi Hj].
    assert (Hrow : exists row, rows a !! i = Some row /\ length row = (shape a).2).
    { destruct (lookup_lt_is_Some_2 (rows a) i) as [row Hrow]; [lia |].
      exists row. split; [exact Hrow |].
      rewrite Forall_forall in Hcols. apply Hcols.
      apply list_elem_of_lookup. exists i. exact Hrow. }
    destruct Hrow as (row & Hrow & Hlen).
    unfold setitem. rewrite bool_decide_eq_true_2 by (split; assumption).
    eexists. split; [reflexivity |]. cbn [shape rows].
    split; [reflexivity |]. split; [| split].
    + unfold well_formed. cbn [shape rows]. rewrite length_alter. split; [exact Hrows |].
      apply Forall_forall. intros r Hr.
      apply list_elem_of_lookup in Hr as (i' & Hr).
      rewrite list_lookup_alter in Hr. rewrite Forall_forall in Hcols.
      destruct (decide (i = i')) as [<-|Hne].
      * rewrite Hrow in Hr. injection Hr as <-. rewrite length_insert. exact Hlen.
      * apply Hcols, list_elem_of_lookup. exists i'. exact Hr.
    + unfold getitem. cbn [shape rows].
      rewrite bool_decide_eq_true_2 by (split; assumption).
      rewrite list_lookup_alter_eq, Hrow. cbn.
      apply list_lookup_insert_eq. lia.
    + intros i' j' Hne. unfold getitem. cbn [shape rows].
      destruct (bool_decide (i' < (shape a).1 /\ j' < (shape a).2)%nat); [| reflexivity].
      destruct (decide (i = i')) as [<-|Hi'].
      * rewrite list_lookup_alter_eq, Hrow. cbn.
        apply list_lookup_insert_ne. congruence.
      * rewrite list_lookup_alter_ne by exact Hi'. reflexivity.
  - intros Hout. unfold setitem. rewrite bool_decide_eq_false_2 by exact Hout. reflexivity.
  - intros sh. split; [apply np_zeros_well_formed |].
    intros i' j' Hi' Hj'. rewrite getitem_np_zeros.
    rewrite bool_decide_eq_true_2 by (split; assumption). reflexivity.
Qed.

Lemma printed_app (tr1 tr2 : list (@Event V)) :
  printed (tr1 ++ tr2) = printed tr1 ++ printed tr2.
Proof. unfold printed. apply flat_map_app. Qed.

Lemma printed_fill_events (s : St) (iPoint len : nat) :
  forall from, printed (fill_events W s iPoint from len) = [].
Proof.
  induction len as [|len IH]; intros from; [reflexivity |].
  unfold fill_events in *. cbn [seq flat_map]. rewrite printed_app, IH. reflexivity.
Qed.

Lemma printed_rows_events (s : St) (nVar_Par len : nat) :
  forall from,
  printed (rows_events W s nVar_Par from len) = adaptation_row W s nVar_Par <$> seq from len.
Proof.
  induction len as [|len IH]; intros from; [reflexivity |].
  unfold rows_events in *. cbn [seq flat_map fmap list_fmap].
  rewrite !printed_app, printed_fill_events, IH. reflexivity.
Qed.

(** X4.  The rows printed during the extraction are, in order, exactly
    the rows of the array it returns: each row is printed once, complete,
    and none is changed after it was printed. *)
Theorem printed_rows_are_final_rows (s : St) :
  exists Sol,
    value (extraction zero W s) = inr Sol
    /\ printed (events (extraction zero W s)) = rows Sol.
Proof.
  rewrite extraction_eq. cbn [value events]. eexists. split; [reflexivity |].
  unfold extraction_events, adaptation_data. cbn [printed flat_map app rows].
  apply printed_rows_events.
Qed.




End Arrays.

(** X3 on the 2x2 array of zeros: storing 7 at [1, 0] reads back 7 there
    and leaves [0, 1] at zero. *)
Lemma setitem_getitem_witness :
  exists a',
    setitem (np_zeros 0 (2%nat, 2%nat)) 1 0 7 = Some a'
    /\ getitem a' 1 0 = Some 7
    /\ getitem a' 0 1 = Some 0.
Proof.
  destruct (proj1 (setitem_getitem 0 (np_zeros 0 (2%nat, 2%nat)) 1 0 7
                     (np_zeros_well_formed 0 (2%nat, 2%nat))))
    as (a' & Hset & _ & _ & Hget & Hframe).
  - cbn. lia.
  - exists a'. split; [exact Hset |]. split; [exact Hget |].
    rewrite (Hframe 0%nat 1%nat) by discriminate. reflexivity.
Defined.

Section Orchestration.

Context {St V : Type} (zero : V) (W : @Wrapper St V).

(** ** Exact traces of the time phases *)

Lemma time_phase_shape (body : Z -> @M St V bool) (block : Z -> bool -> list (@Event V))
    (options : Options) (rank : Z) (text : string) (s : St) :
  runs_as body block ->
  exists k stopped s',
    (TimeIter ← query SU2Driver Ev.GetExtIter RInt (GetExtIter W);
     nTimeIter ← query SU2Driver Ev.GetnExtIter RInt (GetnExtIter W);
     banner options rank text;;
     time_loop body nTimeIter TimeIter;;
     mret tt) s
    = mkRes (phase_events W options rank text block s k stopped) (inr tt) s'.
Proof.
  intros Hbody.
  destruct (time_loop_shape body block Hbody (GetnExtIter W s) (GetExtIter W s) s)
    as (k & stopped & Hev & Hval & _).
  exists k, stopped. eexists.
  unfold mbind, M_bind, query. cbn [value events world].
  rewrite banner_eq. cbn [value events world]. rewrite Hval, Hev.
  cbn [value events world mret M_ret]. unfold phase_events.
  rewrite app_nil_r. reflexivity.
Qed.

Lemma direct_phase_shape (options : Options) (rank : Z) (s : St) :
  exists k stopped s',
    direct_phase W options rank s
    = mkRes (phase_events W options rank banner_flow direct_stage s k stopped) (inr tt) s'.
Proof.
  exact (time_phase_shape (direct_body W) direct_stage options rank banner_flow s
           (direct_body_runs_as W)).
Qed.

Lemma adjoint_phase_shape (options : Options) (rank : Z) (s : St) :
  exists k stopped s',
    adjoint_phase W options rank s
    = mkRes (phase_events W options rank banner_adjoint adjoint_stages s k stopped)
        (inr tt) s'.
Proof.
  exact (time_phase_shape (adjoint_body W) adjoint_stages options rank banner_adjoint s
           (adjoint_body_runs_as W)).
Qed.

Lemma solve_phases_shape (options : Options) (rank : Z) (s : St) :
  exists kd sd s1 ka sa s2,
    solve_phases W options rank s
    = mkRes (marker_events W "airfoil" s
             ++ phase_events W options rank banner_flow direct_stage s kd sd
             ++ phase_events W options rank banner_adjoint adjoint_stages s1 ka sa)
        (inr tt) s2.
Proof.
  destruct (direct_phase_shape options rank s) as (kd & sd & s1 & Hd).
  destruct (adjoint_phase_shape options rank s1) as (ka & sa & s2 & Ha).
  exists kd, sd, s1, ka, sa, s2. unfold solve_phases.
  erewrite bind_eq by apply boundary_marker_eq.
  erewrite bind_eq by exact Hd.
  rewrite Ha. reflexivity.
Qed.

(** ** Absence of a kind of event from the pieces of a trace *)

Lemma existsb_iterations (p : @Event V -> bool) (block : Z -> bool -> list (@Event V))
    (TimeIter : Z) (k : nat) (stopped : bool) :
  (forall i b, existsb p (block i b) = false) ->
  existsb p (iterations block TimeIter k stopped) = false.
Proof.
  intros Hblock. apply existsb_false, Forall_iterations.
  intros i b. apply existsb_false, Hblock.
Qed.

Lemma existsb_banner_events (p : @Event V -> bool) (options : Options) (rank : Z)
    (text : string) :
  p (Print [text]) = false -> p Flush = false -> p Barrier = false ->
  existsb p (banner_events options rank text) = false.
Proof.
  intros Hp Hf Hb. unfold banner_events.
  destruct (bool_decide (rank = 0)), (with_MPI options); cbn [app existsb];
    rewrite ?Hp, ?Hf, ?Hb; reflexivity.
Qed.

Lemma existsb_phase_events (p : @Event V -> bool) (options : Options) (rank : Z)
    (text : string) (block : Z -> bool -> list (@Event V)) (s : St) (k : nat)
    (stopped : bool) :
  (forall r, p (Call SU2Driver Ev.GetExtIter r) = false) ->
  (forall r, p (Call SU2Driver Ev.GetnExtIter r) = false) ->
  p (Print [text]) = false -> p Flush = false -> p Barrier = false ->
  (forall i b, existsb p (block i b) = false) ->
  existsb p (phase_events W options rank text block s k stopped) = false.
Proof.
  intros H1 H2 Hp Hf Hb Hblock. unfold phase_events. cbn [existsb].
  rewrite H1, H2, existsb_app, existsb_banner_events, existsb_iterations by assumption.
  reflexivity.
Qed.

Lemma existsb_marker_events (p : @Event V -> bool) (MarkerName : string) (s : St) :
  (forall r, p (Call SU2Driver Ev.GetAllBoundaryMarkersTag r) = false) ->
  (forall r, p (Call SU2Driver Ev.GetAllBoundaryMarkers r) = false) ->
  (forall id r, p (Call SU2Driver (Ev.GetNumberVertices id) r) = false) ->
  (forall id r, p (Call SU2Driver (Ev.GetNumberHaloVertices id) r) = false) ->
  existsb p (marker_events W MarkerName s) = false.
Proof.
  intros H1 H2 H3 H4. unfold marker_events.
  destruct (lookup_marker _ _ _); cbn [existsb]; rewrite H1, H2, ?H3, ?H4; reflexivity.
Qed.

Lemma existsb_fill_events (p : @Event V -> bool) (s : St) (iPoint len : nat) :
  (forall i j v, p (Call SU2Error (Ev.GetAdaptationData j i) (RFloat v)) = false) ->
  (forall i j v, p (Store i j v) = false) ->
  forall from, existsb p (fill_events W s iPoint from len) = false.
Proof.
  intros Hg Hs. unfold fill_events.
  induction len as [|len IH]; intros from; [reflexivity |].
  cbn [seq flat_map app existsb]. rewrite Hg, Hs. apply IH.
Qed.

Lemma existsb_extraction_events (p : @Event V -> bool) (s : St) :
  (forall r, p (Call SU2Driver (Ev.GetnPointDomain 0 0 0) r) = false) ->
  (forall r, p (Call SU2Error Ev.GetnVarPar r) = false) ->
  (forall sh, p (Alloc sh) = false) ->
  (forall i j v, p (Call SU2Error (Ev.GetAdaptationData j i) (RFloat v)) = false) ->
  (forall i j v, p (Store i j v) = false) ->
  (forall row, p (PrintRow row) = false) ->
  existsb p (extraction_events W s) = false.
Proof.
  intros H1 H2 Ha Hg Hs Hr. unfold extraction_events. cbn [existsb].
  rewrite H1, H2, Ha. cbn [orb]. unfold rows_events.
  generalize 0%nat at 2 as from.
  induction (GetnPointDomain W s 0 0 0) as [|len IH]; intros from; [reflexivity |].
  cbn [seq flat_map]. rewrite !existsb_app, existsb_fill_events by assumption.
  cbn [existsb orb]. rewrite Hr. apply IH.
Qed.

Lemma filter_none {A} (p : A -> bool) (l : list A) :
  existsb p l = false -> List.filter p l = [].
Proof.
  induction l as [|x l IH]; [reflexivity |]. cbn [existsb List.filter].
  intros Hx. apply orb_false_iff in Hx as [-> Hl]. apply IH, Hl.
Qed.

Lemma announcements_app (tr1 tr2 : list (@Event V)) :
  announcements (tr1 ++ tr2) = announcements tr1 ++ announcements tr2.
Proof. unfold announcements. apply List.filter_app. Qed.

Lemma announcements_banner_events (options : Options) (rank : Z) (text : string) :
  announcements (V:=V) (banner_events options rank text) = banner_events options rank text.
Proof.
  unfold banner_events. destruct (bool_decide (rank = 0)), (with_MPI options); reflexivity.
Qed.

Lemma announcements_phase_events (options : Options) (rank : Z) (text : string)
    (block : Z -> bool -> list (@Event V)) (s : St) (k : nat) (stopped : bool) :
  (forall i b, existsb is_announcement (block i b) = false) ->
  announcements (phase_events W options rank text block s k stopped)
  = banner_events options rank text.
Proof.
  intros Hblock. unfold phase_events.
  change (announcements (banner_events options rank text
                         ++ iterations block (GetExtIter W s) k stopped)
          = banner_events options rank text).
  rewrite announcements_app, announcements_banner_events.
  unfold announcements at 1.
  rewrite filter_none by (apply existsb_iterations; exact Hblock).
  apply app_nil_r.
Qed.

(** ** Output, outcome, teardown and order of a whole run *)

Ltac no_such_event :=
  repeat first
    [ rewrite existsb_app
    | rewrite existsb_marker_events by (intros; reflexivity)
    | rewrite existsb_phase_events by (intros; reflexivity)
    | rewrite existsb_banner_events by (intros; reflexivity)
    | rewrite existsb_extraction_events by (intros; reflexivity)
    | progress cbn [existsb orb] ];
  try reflexivity.

Lemma existsb_handler_events (p : @Event V -> bool) (options : Options) (e : Exn) :
  (forall args, p (Print args) = false) ->
  existsb p (handler_events options e) = false.
Proof.
  intros Hp. destruct e; cbn [handler_events existsb]; rewrite ?Hp; reflexivity.
Qed.

(** X6.  When both constructors succeed, the banners, flushes and
    barriers of the run are those of the flow phase, then of the adjoint
    phase, then of the error estimation, once each: a banner is printed
    only on rank 0, a flush always follows, and a barrier only in a
    parallel run.  Nothing else is printed but the rows of the array. *)
Theorem phases_announced_in_order (options : Options) (s s0 s2 : St) :
  CDiscAdjSinglezoneDriver W (filename options) (nZone options) (nDim options)
    (comm_of options) s = inr s0 ->
  CErrorEstimationDriver W (nZone options) (nDim options) (comm_of options)
    (world (solve_phases W options (rank_of W options) s0)) = inr s2 ->
  announcements (events (main zero W options s))
  = banner_events options (rank_of W options) banner_flow
    ++ banner_events options (rank_of W options) banner_adjoint
    ++ banner_events options (rank_of W options) banner_error.
Proof.
  intros Hs0 Hs2. rewrite main_eq, Hs0. cbv zeta. rewrite Hs2.
  destruct (solve_phases_shape options (rank_of W options) s0)
    as (kd & sd & s1 & ka & sa & s' & ->).
  cbn [events world]. unfold error_estimation_events.
  change (announcements
            ((marker_events W "airfoil" s0
              ++ phase_events W options (rank_of W options) banner_flow direct_stage s0 kd sd
              ++ phase_events W options (rank_of W options) banner_adjoint adjoint_stages
                   s1 ka sa)
             ++ [Construct SU2Error None]
             ++ banner_events options (rank_of W options) banner_error
             ++ Call SU2Error Ev.ComputeMetric RNone
             :: Call SU2Error Ev.SetAdaptationData RNone
             :: extraction_events W (SetAdaptationData W (ComputeMetric W s2))
             ++ [Call SU2Driver Ev.Postprocessing RNone; Del SU2Driver])
          = banner_events options (rank_of W options) banner_flow
            ++ banner_events options (rank_of W options) banner_adjoint
            ++ banner_events options (rank_of W options) banner_error).
  rewrite !announcements_app, !announcements_phase_events by (intros; reflexivity).
  rewrite announcements_banner_events.
  unfold announcements at 1.
  rewrite filter_none by (apply existsb_marker_events; intros; reflexivity).
  unfold announcements at 2. rewrite filter_none by no_such_event.
  cbn [announcements List.filter is_announcement app].
  rewrite app_nil_r, <- ?app_assoc. reflexivity.
Qed.

Lemma solve_phases_no_teardown (options : Options) (rank : Z) (s : St) :
  existsb is_teardown (events (solve_phases W options rank s)) = false.
Proof.
  destruct (solve_phases_shape options rank s) as (kd & sd & s1 & ka & sa & s' & ->).
  cbn [events]. no_such_event.
Qed.

(** X8.  The final [Postprocessing] call and the [del] of the driver
    happen only in a run that reaches its end, where they are the last two
    events and occur nowhere before; a run that ends in a handler or with
    an exception never makes them. *)
Theorem teardown_only_at_the_end (options : Options) (s : St) :
  match value (main zero W options s) with
  | inr (Some _) =>
      exists pre,
        events (main zero W options s)
        = pre ++ [Call SU2Driver Ev.Postprocessing RNone; Del SU2Driver]
        /\ existsb is_teardown pre = false
  | _ => existsb is_teardown (events (main zero W options s)) = false
  end.
Proof.
  rewrite main_eq.
  destruct (CDiscAdjSinglezoneDriver W _ _ _ _ s) as [e|s0].
  { destruct e; reflexivity. }
  cbv zeta. pose proof (solve_phases_no_teardown options (rank_of W options) s0) as Hsolve.
  destruct (CErrorEstimationDriver W _ _ _ _) as [e|s2].
  - destruct e; cbn [value events existsb is_teardown orb];
      rewrite existsb_app, Hsolve; reflexivity.
  - cbn [value events]. unfold error_estimation_events.
    exists (Construct SU2Driver None
            :: events (solve_phases W options (rank_of W options) s0)
            ++ Construct SU2Error None
            :: banner_events options (rank_of W options) banner_error
            ++ Call SU2Error Ev.ComputeMetric RNone
            :: Call SU2Error Ev.SetAdaptationData RNone
            :: extraction_events W (SetAdaptationData W (ComputeMetric W s2))).
    split.
    + cbn [app]. f_equal. rewrite <- !app_assoc. cbn [app]. f_equal. f_equal.
      rewrite <- !app_assoc. reflexivity.
    + cbn [existsb is_teardown orb]. rewrite existsb_app, Hsolve.
      no_such_event.
Qed.

(** X9.  The trace of every run splits into three consecutive parts: the
    first holds every [DirectIteration] call, the second every call of an
    adjoint stage, and the third every event of the error estimation and
    of the teardown.  So no direct step comes after an adjoint stage, and
    nothing of the error estimation comes before the adjoint loop is
    over. *)
Theorem phases_in_order (options : Options) (s : St) :
  exists direct adjoint estimation,
    events (main zero W options s) = direct ++ adjoint ++ estimation
    /\ existsb is_adjoint_stage direct = false
    /\ existsb is_late direct = false
    /\ existsb is_DirectIteration adjoint = false
    /\ existsb is_late adjoint = false
    /\ existsb is_DirectIteration estimation = false
    /\ existsb is_adjoint_stage estimation = false.
Proof.
  rewrite main_eq.
  destruct (CDiscAdjSinglezoneDriver W _ _ _ _ s) as [e|s0].
  { eexists _, [], []. rewrite !app_nil_r. split; [reflexivity |].
    destruct e; cbn [events handler_events]; repeat split; try reflexivity.
    unfold mismatch_message. destruct (with_MPI options); reflexivity. }
  cbv zeta.
  destruct (solve_phases_shape options (rank_of W options) s0)
    as (kd & sd & s1 & ka & sa & s' & ->).
  cbn [events world].
  exists (Construct SU2Driver None
          :: marker_events W "airfoil" s0
          ++ phase_events W options (rank_of W options) banner_flow direct_stage s0 kd sd),
         (phase_events W options (rank_of W options) banner_adjoint adjoint_stages s1 ka sa).
  destruct (CErrorEstimationDriver W _ _ _ _) as [e|s2].
  - exists (Construct SU2Error (Some e) :: handler_events options e).
    split; [destruct e; cbn [events handler_events app]; rewrite <- !app_assoc; reflexivity |].
    repeat split; no_such_event; apply existsb_handler_events; reflexivity.
  - exists (Construct SU2Error None
            :: error_estimation_events W options (rank_of W options) s2).
    split; [cbn [events app]; rewrite <- !app_assoc; reflexivity |].
    unfold error_estimation_events. repeat split; no_such_event.
Qed.

Lemma existsb_phase_events_banner (p : @Event V -> bool) (options : Options) (rank : Z)
    (text : string) (block : Z -> bool -> list (@Event V)) (s : St) (k : nat)
    (stopped : bool) :
  (forall r, p (Call SU2Driver Ev.GetExtIter r) = false) ->
  (forall r, p (Call SU2Driver Ev.GetnExtIter r) = false) ->
  existsb p (banner_events options rank text) = false ->
  (forall i b, existsb p (block i b) = false) ->
  existsb p (phase_events W options rank text block s k stopped) = false.
Proof.
  intros H1 H2 Hbanner Hblock. unfold phase_events. cbn [existsb].
  rewrite H1, H2, existsb_app, Hbanner, existsb_iterations by assumption.
  reflexivity.
Qed.

Lemma main_without (p : @Event V -> bool) (options : Options) (s : St) :
  (forall text, existsb p (banner_events options (rank_of W options) text) = false) ->
  (forall o m r, p (Call o m r) = false) ->
  (forall o r, p (Construct o r) = false) ->
  (forall e, existsb p (handler_events options e) = false) ->
  (forall sh, p (Alloc sh) = false) ->
  (forall i j v, p (Store i j v) = false) ->
  (forall row, p (PrintRow row) = false) ->
  (forall o, p (Del o) = false) ->
  existsb p (events (main zero W options s)) = false.
Proof.
  intros Hbanner Hcall Hcons Hhandler Halloc Hstore Hrow Hdel. rewrite main_eq.
  destruct (CDiscAdjSinglezoneDriver W _ _ _ _ s) as [e|s0].
  { specialize (Hhandler e). destruct e; cbn [events existsb]; rewrite Hcons;
      [exact Hhandler | reflexivity | reflexivity]. }
  cbv zeta.
  destruct (solve_phases_shape options (rank_of W options) s0)
    as (kd & sd & s1 & ka & sa & s' & ->).
  cbn [events world].
  assert (Hsolve : existsb p
            (marker_events W "airfoil" s0
             ++ phase_events W options (rank_of W options) banner_flow direct_stage s0 kd sd
             ++ phase_events W options (rank_of W options) banner_adjoint adjoint_stages
                  s1 ka sa) = false).
  { rewrite !existsb_app, existsb_marker_events by (intros; apply Hcall).
    rewrite !existsb_phase_events_banner;
      try reflexivity; try apply Hbanner; intros; try apply Hcall;
      cbn [direct_stage adjoint_stages existsb]; rewrite ?Hcall; reflexivity. }
  destruct (CErrorEstimationDriver W _ _ _ _) as [e|s2].
  - specialize (Hhandler e).
    destruct e; cbn [events existsb]; rewrite Hcons, existsb_app, Hsolve;
      cbn [existsb orb]; rewrite Hcons; [exact Hhandler | reflexivity | reflexivity].
  - cbn [events existsb]. rewrite Hcons, existsb_app, Hsolve. cbn [existsb orb].
    rewrite Hcons. unfold error_estimation_events.
    rewrite existsb_app, Hbanner. cbn [existsb orb]. rewrite !Hcall.
    rewrite existsb_app, existsb_extraction_events by (intros; auto).
    cbn [existsb orb]. rewrite Hcall, Hdel. reflexivity.
Qed.

(** X10.  In every run, aborted or not: a serial run makes no barrier
    call, and on a rank other than 0 none of the three phase banners is
    printed. *)
Theorem barriers_and_banners (options : Options) (s : St) :
  (with_MPI options = false ->
   existsb is_barrier (events (main zero W options s)) = false)
  /\ (rank_of W options <> 0 ->
      existsb is_banner (events (main zero W options s)) = false).
Proof.
  split.
  - intros Hserial. apply main_without; try (intros; reflexivity).
    + intros text. unfold banner_events. rewrite Hserial.
      destruct (bool_decide _); reflexivity.
    + intros e. apply existsb_handler_events. reflexivity.
  - intros Hrank. apply main_without; try (intros; reflexivity).
    + intros text. unfold banner_events.
      rewrite bool_decide_eq_false_2 by exact Hrank.
      destruct (with_MPI options); reflexivity.
    + intros e. destruct e; cbn [handler_events existsb is_banner orb]; try reflexivity.
      unfold mismatch_message. destruct (with_MPI options); reflexivity.
Qed.

End Orchestration.

(** X6 on scenario D run in parallel on rank 0: three banners, each
    followed by a flush and a barrier. *)
Lemma phases_announced_in_order_witness :
  announcements (events (main 0 scenario_D parallel_options 0%nat))
  = [Print [banner_flow]; Flush; Barrier;
     Print [banner_adjoint]; Flush; Barrier;
     Print [banner_error]; Flush; Barrier].
Proof.
  exact (phases_announced_in_order 0 scenario_D parallel_options 0%nat 0%nat 5%nat
           eq_refl eq_refl).
Defined.

(** X10 on scenario D: run serially, no barrier in the trace; run in
    parallel on rank 1, no banner. *)
Lemma barriers_and_banners_witness :
  existsb is_barrier (events (main 0 scenario_D serial_options 0%nat)) = false
  /\ existsb is_banner (events (main 0 scenario_D_rank_1 parallel_options 0%nat)) = false.
Proof.
  split.
  - exact (proj1 (barriers_and_banners 0 scenario_D serial_options 0%nat) eq_refl).
  - apply (proj2 (barriers_and_banners 0 scenario_D_rank_1 parallel_options 0%nat)).
    discriminate.
Defined.
